(** * The VirtualBox 4.2 driver: command executor, version gate and
      snapshot-tree parser

    A shallow embedding of [VBox42Driver] (package [common]) and a
    verification of what its specification says about it.

    Go strings are byte sequences; they are modelled as [list ascii].
    The external tool is a subprocess: what it answers is given by a
    [World], and every function of the driver that runs it threads the
    history of the commands run so far.  A Go panic is an outcome of its
    own, distinct from a returned [error].  Calls to [log.Printf] have no
    effect on any result and are left out, except where evaluating their
    arguments can panic. *)

From Stdlib Require Import Ascii String List ZArith Lia Bool.
From Stdlib Require Import Permutation.
Import ListNotations.

Set Implicit Arguments.

Coercion list_ascii_of_string : string >-> list.

Open Scope string_scope.
Open Scope list_scope.
Open Scope Z_scope.

(** ** Go strings *)

Definition gostring := list ascii.

(** The double quote, which a Rocq literal cannot hold conveniently. *)
Definition dquote : ascii := "034"%char.

Fixpoint gostring_eqb (a b : gostring) : bool :=
  match a, b with
  | [], [] => true
  | x :: a', y :: b' => Ascii.eqb x y && gostring_eqb a' b'
  | _, _ => false
  end.

(** [len(s)], a Go [int]. *)
Definition len (s : gostring) : Z := Z.of_nat (length s).

(** *** Package [strings] *)

Fixpoint strings_HasPrefix (s prefix : gostring) : bool :=
  match prefix, s with
  | [], _ => true
  | p :: prefix', c :: s' => Ascii.eqb c p && strings_HasPrefix s' prefix'
  | _ :: _, [] => false
  end.

(** [strings.Contains(s, substr)]. *)
Fixpoint strings_Contains (s substr : gostring) : bool :=
  strings_HasPrefix s substr ||
  match s with
  | [] => false
  | _ :: s' => strings_Contains s' substr
  end.

(** [strings.Index(s, substr)]: the byte offset of the first occurrence,
    [-1] when there is none. *)
Fixpoint strings_Index (s substr : gostring) : Z :=
  if strings_HasPrefix s substr then 0
  else match s with
       | [] => -1
       | _ :: s' => let i := strings_Index s' substr in
                    if i <? 0 then -1 else i + 1
       end.

(** [strings.Count(s, sep)] for a separator of one byte, the only use the
    driver makes of it. *)
Fixpoint strings_Count (s : gostring) (sep : ascii) : Z :=
  match s with
  | [] => 0
  | c :: s' => (if Ascii.eqb c sep then 1 else 0) + strings_Count s' sep
  end.

(** [strings.Split(s, sep)] for a separator of one byte: always at least
    one piece. *)
Fixpoint strings_Split (s : gostring) (sep : ascii) : list gostring :=
  match s with
  | [] => [[]]
  | c :: s' =>
      if Ascii.eqb c sep then [] :: strings_Split s' sep
      else match strings_Split s' sep with
           | piece :: pieces => (c :: piece) :: pieces
           | [] => [[c]]
           end
  end.

Fixpoint dropLeading (cutset : list ascii) (s : gostring) : gostring :=
  match s with
  | c :: s' => if existsb (Ascii.eqb c) cutset then dropLeading cutset s' else s
  | [] => []
  end.

(** [strings.TrimRight(s, cutset)] for a cutset of ASCII bytes: every
    trailing byte of the cutset goes, not only the last one. *)
Definition strings_TrimRight (s : gostring) (cutset : list ascii) : gostring :=
  rev (dropLeading cutset (rev s)).

(** The white space of [unicode.IsSpace], by its UTF-8 encoding.  One
    byte: tab, line feed, vertical tab, form feed, carriage return,
    space. *)
Definition asciiSpace (c : ascii) : bool :=
  let n := N_of_ascii c in
  ((9 <=? n) && (n <=? 13) || (n =? 32))%N.

(** Two bytes: U+0085 and U+00A0. *)
Definition space2 (c1 c2 : ascii) : bool :=
  let a := N_of_ascii c1 in
  let b := N_of_ascii c2 in
  ((a =? 194) && ((b =? 133) || (b =? 160)))%N.

(** Three bytes: U+1680, U+2000..U+200A, U+2028, U+2029, U+202F, U+205F,
    U+3000. *)
Definition space3 (c1 c2 c3 : ascii) : bool :=
  let a := N_of_ascii c1 in
  let b := N_of_ascii c2 in
  let c := N_of_ascii c3 in
  ((a =? 225) && (b =? 154) && (c =? 128)
   || (a =? 226) && (b =? 128)
      && ((128 <=? c) && (c <=? 138) || (c =? 168) || (c =? 169) || (c =? 175))
   || (a =? 226) && (b =? 129) && (c =? 159)
   || (a =? 227) && (b =? 128) && (c =? 128))%N.

(** [strings.TrimLeftFunc(s, unicode.IsSpace)]: a byte that does not
    start the encoding of a white-space rune stops the scan (an invalid
    byte decodes to U+FFFD, which is not white space). *)
Fixpoint trimLeftSpace (s : gostring) : gostring :=
  match s with
  | c1 :: t1 =>
      if asciiSpace c1 then trimLeftSpace t1
      else match t1 with
           | c2 :: t2 =>
               if space2 c1 c2 then trimLeftSpace t2
               else match t2 with
                    | c3 :: t3 =>
                        if space3 c1 c2 c3 then trimLeftSpace t3 else s
                    | [] => s
                    end
           | [] => s
           end
  | [] => []
  end.

(** The same from the end, on the reversed string: the last rune is
    white space exactly when the string ends with one of the encodings. *)
Fixpoint trimRightSpaceRev (r : gostring) : gostring :=
  match r with
  | c1 :: t1 =>
      if asciiSpace c1 then trimRightSpaceRev t1
      else match t1 with
           | c2 :: t2 =>
               if space2 c2 c1 then trimRightSpaceRev t2
               else match t2 with
                    | c3 :: t3 =>
                        if space3 c3 c2 c1 then trimRightSpaceRev t3 else r
                    | [] => r
                    end
           | [] => r
           end
  | [] => []
  end.

(** [strings.TrimSpace(s)]. *)
Definition strings_TrimSpace (s : gostring) : gostring :=
  rev (trimRightSpaceRev (rev (trimLeftSpace s))).

(** *** Package [strconv] *)

Definition digitChar (d : Z) : ascii := ascii_of_N (Z.to_N (48 + d)).

Fixpoint itoaPos (fuel : nat) (n : Z) (acc : gostring) : gostring :=
  match fuel with
  | O => acc
  | S fuel' =>
      let acc' := digitChar (n mod 10) :: acc in
      if n / 10 =? 0 then acc' else itoaPos fuel' (n / 10) acc'
  end.

(** [strconv.Itoa(i)]; an [int] has at most 19 decimal digits. *)
Definition strconv_Itoa (i : Z) : gostring :=
  if i <? 0 then "-"%char :: itoaPos 20 (- i) [] else itoaPos 20 i [].

(** ** Package [regexp]

    The language of a pattern, and a matcher by derivatives that decides
    it.  The patterns of the driver are ASCII, so matching bytes is
    matching runes. *)

Module Regexp.

Inductive regex : Type :=
| Empty
| Eps
| Class (p : ascii -> bool)
| Cat (r1 r2 : regex)
| Alt (r1 r2 : regex)
| Star (r : regex).

Fixpoint Lit (s : gostring) : regex :=
  match s with
  | [] => Eps
  | c :: s' => Cat (Class (Ascii.eqb c)) (Lit s')
  end.

Definition Plus (r : regex) : regex := Cat r (Star r).
Definition Opt (r : regex) : regex := Alt r Eps.
Definition Range (lo hi : ascii) : ascii -> bool :=
  fun c => ((N_of_ascii lo <=? N_of_ascii c) && (N_of_ascii c <=? N_of_ascii hi))%N.
Definition Or (p q : ascii -> bool) : ascii -> bool := fun c => p c || q c.
Definition Not (p : ascii -> bool) : ascii -> bool := fun c => negb (p c).
Definition Chr (a : ascii) : ascii -> bool := Ascii.eqb a.

Inductive matches : regex -> gostring -> Prop :=
| MEps : matches Eps []
| MClass p c : p c = true -> matches (Class p) [c]
| MCat r1 r2 s1 s2 :
    matches r1 s1 -> matches r2 s2 -> matches (Cat r1 r2) (s1 ++ s2)
| MAltL r1 r2 s : matches r1 s -> matches (Alt r1 r2) s
| MAltR r1 r2 s : matches r2 s -> matches (Alt r1 r2) s
| MStarNil r : matches (Star r) []
| MStarApp r s1 s2 :
    matches r s1 -> matches (Star r) s2 -> matches (Star r) (s1 ++ s2).

Fixpoint nullable (r : regex) : bool :=
  match r with
  | Empty => false
  | Eps => true
  | Class _ => false
  | Cat r1 r2 => nullable r1 && nullable r2
  | Alt r1 r2 => nullable r1 || nullable r2
  | Star _ => true
  end.

Fixpoint deriv (c : ascii) (r : regex) : regex :=
  match r with
  | Empty => Empty
  | Eps => Empty
  | Class p => if p c then Eps else Empty
  | Cat r1 r2 =>
      if nullable r1 then Alt (Cat (deriv c r1) r2) (deriv c r2)
      else Cat (deriv c r1) r2
  | Alt r1 r2 => Alt (deriv c r1) (deriv c r2)
  | Star r1 => Cat (deriv c r1) (Star r1)
  end.

(** The whole of [s] is in the language of [r]. *)
Fixpoint fullMatch (r : regex) (s : gostring) : bool :=
  match s with
  | [] => nullable r
  | c :: s' => fullMatch (deriv c r) s'
  end.

Definition anything : regex := Star (Class (fun _ => true)).

(** [regexp.MatchString(pattern, s)]: some substring of [s] matches. *)
Definition MatchString (re : regex) (s : gostring) : bool :=
  fullMatch (Cat anything (Cat re anything)) s.

(** A match anchored at the start of the text, for a pattern that opens
    with [^]. *)
Definition MatchPrefix (re : regex) (s : gostring) : bool :=
  fullMatch (Cat re anything) s.

End Regexp.

Import Regexp.

(** ** Errors, panics and subprocesses *)

(** A Go [error] value that is not nil.  [cmd.Run] returns an
    [*exec.ExitError] when the process ran and did not exit with status
    zero, and an error of another type when it could not be started. *)
Inductive error : Type :=
| exec_ExitError (status : Z)
| exec_StartError (msg : gostring)
| fmt_Errorf (msg : gostring).

(** [err.Error()]. *)
Definition Error (e : error) : gostring :=
  match e with
  | exec_ExitError status => "exit status " ++ strconv_Itoa status
  | exec_StartError msg => msg
  | fmt_Errorf msg => msg
  end.

(** What a goroutine can panic with in this file. *)
Inductive PanicValue : Type :=
| PanicString (msg : gostring)
| IndexOutOfRange (index : Z) (length : Z)
| NilPointerDereference
| NilInterfaceConversion.

Inductive Outcome (A : Type) : Type :=
| Returns (a : A)
| Panics (p : PanicValue).

Arguments Returns {A} a.
Arguments Panics {A} p.

(** One run of a subprocess: [exec.Command(path, args...)]. *)
Record Cmd : Type := mkCmd { Path : gostring; Args : list gostring }.

(** What [cmd.Run()] leaves behind: its error, and everything the process
    wrote to its standard output and standard error. *)
Record Ran : Type := mkRan {
  ran_err : option error;
  ran_stdout : gostring;
  ran_stderr : gostring
}.

Definition History := list Cmd.

(** The answer of the operating system to a command, which may depend on
    the commands run before it. *)
Definition World := History -> Cmd -> Ran.

(** Code that runs subprocesses and may panic. *)
Definition Exec (A : Type) : Type := History -> Outcome A * History.

Definition ret {A} (a : A) : Exec A := fun h => (Returns a, h).

Definition bind {A B} (m : Exec A) (k : A -> Exec B) : Exec B :=
  fun h =>
    match m h with
    | (Returns a, h') => k a h'
    | (Panics p, h') => (Panics p, h')
    end.

Definition panic {A} (p : PanicValue) : Exec A := fun h => (Panics p, h).

Notation "x <- m ;; k" := (bind m (fun x => k))
  (at level 61, m at next level, right associativity).
Notation "' pat <- m ;; k" := (bind m (fun x => match x with pat => k end))
  (at level 61, pat pattern, m at next level, right associativity).

(** [cmd.Run()] *)
Definition cmd_Run (w : World) (c : Cmd) : Exec Ran :=
  fun h => (Returns (w h c), h ++ [c]).

(** ** Package [go-version] (imported as [versionUtil]) *)

Module versionUtil.

(** Modelled from the spec: the version library, a dependency that is
    not among the sources.  Versions are compared numerically, dot
    segment by dot segment.  The driver only hands the library what
    [Version] returns, a run of dots and digits, and the constant
    ["4.3"]; for such strings the library reads dot-separated decimal
    segments, each an [int64], pads them with zeros to three and
    compares them in order. *)
Record Version : Type := mkVersion { segments : list Z }.

Definition isDigit (c : ascii) : bool := Range "0" "9" c.

Definition digitValue (c : ascii) : Z := Z.of_N (N_of_ascii c) - 48.

(** The value of a run of decimal digits, read from the left. *)
Definition decimal (s : gostring) : Z :=
  fold_left (fun acc c => 10 * acc + digitValue c) s 0.

Definition maxInt64 : Z := 9223372036854775807.

Inductive Parsed : Type :=
| Malformed
| OutOfRange
| Segments (l : list Z).

Fixpoint parseSegments (pieces : list gostring) : Parsed :=
  match pieces with
  | [] => Segments []
  | piece :: rest =>
      if forallb isDigit piece && negb (gostring_eqb piece [])
      then match parseSegments rest with
           | Segments l =>
               if decimal piece <=? maxInt64
               then Segments (decimal piece :: l)
               else OutOfRange
           | bad => bad
           end
      else Malformed
  end.

(** Even if we have less than three segments, the version has three. *)
Definition pad3 (l : list Z) : list Z :=
  l ++ repeat 0 (3 - length l)%nat.

(** Modelled from the spec: [NewVersion] of the library, on a run of
    dots and digits.  A string with any other byte is reported malformed
    here (the library also reads a [v] prefix, a prerelease and
    metadata, which no string of the driver carries). *)
Definition NewVersion (v : gostring) : Version + error :=
  match parseSegments (strings_Split v ".") with
  | Malformed => inr (fmt_Errorf ("Malformed version: " ++ v))
  | OutOfRange => inr (fmt_Errorf ("Error parsing version: " ++ v))
  | Segments l => inl (mkVersion (pad3 l))
  end.

Definition allZero (l : list Z) : bool := forallb (Z.eqb 0) l.

(** The segment loop of [Compare], on what is left of both lists. *)
Fixpoint compareSegments (self other : list Z) : Z :=
  match self, other with
  | [], [] => 0
  | [], _ => if allZero other then 0 else -1
  | _, [] => if allZero self then 0 else 1
  | lhs :: self', rhs :: other' =>
      if lhs =? rhs then compareSegments self' other'
      else if lhs <? rhs then -1
      else 1
  end.

(** Modelled from the spec: [Compare] of the library, numeric and dot
    segment by dot segment; a missing segment counts as zero. *)
Definition Compare (v other : Version) : Z :=
  compareSegments (segments v) (segments other).

Definition LessThan (v other : Version) : bool := Compare v other <? 0.

End versionUtil.

(** ** Package [stack] (golang-collections) *)

Module stack.

Section Stack.

Variable V : Type.

(** Modelled from the spec: the ancestor stack, a last-in first-out
    sequence from a dependency that is not among the sources.  It holds
    [interface{}] values; as in the library, [Pop] and [Peek] on an
    empty stack return the nil interface and change nothing. *)
Definition Stack := list V.

Definition New : Stack := [].

Definition Len (this : Stack) : Z := Z.of_nat (length this).

Definition Push (this : Stack) (value : V) : Stack := value :: this.

Definition Pop (this : Stack) : option V * Stack :=
  match this with
  | [] => (None, [])
  | top :: prev => (Some top, prev)
  end.

Definition Peek (this : Stack) : option V :=
  match this with
  | [] => None
  | top :: _ => Some top
  end.

End Stack.

End stack.

(** ** Running code that may panic but runs no subprocess *)

Definition obind {A B} (m : Outcome A) (k : A -> Outcome B) : Outcome B :=
  match m with
  | Returns a => k a
  | Panics p => Panics p
  end.

Notation "x <~ m ;; k" := (obind m (fun x => k))
  (at level 61, m at next level, right associativity).

Definition lift {A} (m : Outcome A) : Exec A := fun h => (m, h).

(** [l[i]] on a slice of strings: out of range, the goroutine panics. *)
Definition index (l : list gostring) (i : nat) : Outcome gostring :=
  match nth_error l i with
  | Some x => Returns x
  | None => Panics (IndexOutOfRange (Z.of_nat i) (Z.of_nat (length l)))
  end.

(** The longest prefix of [s] whose bytes satisfy [p], and the rest. *)
Fixpoint span (p : ascii -> bool) (s : gostring) : gostring * gostring :=
  match s with
  | c :: s' =>
      if p c then let (run, rest) := span p s' in (c :: run, rest)
      else ([], s)
  | [] => ([], [])
  end.

Fixpoint stripPrefix (prefix s : gostring) : option gostring :=
  match prefix, s with
  | [], _ => Some s
  | p :: prefix', c :: s' =>
      if Ascii.eqb c p then stripPrefix prefix' s' else None
  | _ :: _, [] => None
  end.

(** ** The patterns of the driver *)

(** ["VBoxManage([.a-z]+?): error:"] *)
Definition errorBannerRe : regex :=
  Cat (Lit "VBoxManage")
      (Cat (Plus (Class (Or (Chr ".") (Range "a" "z"))))
           (Lit ": error:")).

Definition dotOrDigit : ascii -> bool := Or (Chr ".") (Range "0" "9").

Definition releaseTagRe : regex :=
  Cat (Lit "_")
      (Cat (Alt (Lit "RC") (Lit "OSEr")) (Plus (Class (Range "0" "9")))).

(** ["^([.0-9]+)(?:_(?:RC|OSEr)[0-9]+)?"] *)
Definition versionRe : regex :=
  Cat (Plus (Class dotOrDigit)) (Opt releaseTagRe).

(** The release tag at the start of [s], empty when there is none. *)
Definition releaseTag (s : gostring) : gostring :=
  match stripPrefix "_RC" s, stripPrefix "_OSEr" s with
  | Some rest, _ =>
      match fst (span (Range "0" "9") rest) with
      | [] => []
      | digits => "_RC" ++ digits
      end
  | None, Some rest =>
      match fst (span (Range "0" "9") rest) with
      | [] => []
      | digits => "_OSEr" ++ digits
      end
  | None, None => []
  end.

(** [versionRe.FindAllStringSubmatch(s, 1)]: nil without a match, else
    one match, its text followed by the text of the one group.  The
    group is greedy and what follows it is optional, so it takes the
    whole leading run of dots and digits. *)
Definition versionRe_FindAllStringSubmatch (s : gostring)
  : list (list gostring) :=
  match span dotOrDigit s with
  | ([], _) => []
  | (run, rest) => [[run ++ releaseTag rest; run]]
  end.

Definition pathGroupRe : regex :=
  Cat (Lit "-") (Plus (Class (Range "1" "9"))).

(** The pattern of a snapshot record: [Snapshot], then the group [Type],
    [Name|UUID], then the group [Path], any number of [-[1-9]+], then
    [=] and, between double quotes, the group [Value], any number of
    bytes other than the double quote. *)
Definition SnapshotNamePartsRe : regex :=
  Cat (Lit "Snapshot")
      (Cat (Alt (Lit "Name") (Lit "UUID"))
           (Cat (Star pathGroupRe)
                (Cat (Lit ("=" ++ [dquote]))
                     (Cat (Star (Class (Not (Chr dquote))))
                          (Lit [dquote]))))).

Definition pathByte : ascii -> bool := Or (Chr "-") (Range "1" "9").

(** The last [-[1-9]+] of a path: what the inner group holds after the
    last round of the star, empty for the empty path. *)
Fixpoint lastGroup (path : gostring) : gostring :=
  match path with
  | [] => []
  | c :: path' =>
      if strings_Contains path' "-" then lastGroup path' else path
  end.

(** A match of [SnapshotNamePartsRe] that starts at the first byte of
    [s]: the text of the match and of its four groups.  The path ends at
    the ["="], which no path holds, and the value at the first double
    quote, so there is one way at most to match from a given start. *)
Definition snapshotPartsAt (s : gostring) : option (list gostring) :=
  match stripPrefix "Snapshot" s with
  | None => None
  | Some r1 =>
      match
        match stripPrefix "Name" r1, stripPrefix "UUID" r1 with
        | Some r2, _ => Some ("Name" : gostring, r2)
        | None, Some r2 => Some ("UUID" : gostring, r2)
        | None, None => None
        end
      with
      | None => None
      | Some (type, r2) =>
          let (path, r3) := span pathByte r2 in
          if fullMatch (Star pathGroupRe) path then
            match stripPrefix ("=" ++ [dquote]) r3 with
            | None => None
            | Some r4 =>
                let (value, r5) := span (Not (Chr dquote)) r4 in
                match stripPrefix [dquote] r5 with
                | None => None
                | Some _ =>
                    Some [ "Snapshot" ++ type ++ path ++ "=" ++ [dquote]
                             ++ value ++ [dquote];
                           type; path; lastGroup path; value ]
                end
            end
          else None
      end
  end.

(** [SnapshotNamePartsRe.FindStringSubmatch(txt)]: the leftmost match,
    nil when there is none. *)
Fixpoint SnapshotNamePartsRe_FindStringSubmatch (txt : gostring)
  : list gostring :=
  match snapshotPartsAt txt with
  | Some m => m
  | None =>
      match txt with
      | [] => []
      | _ :: txt' => SnapshotNamePartsRe_FindStringSubmatch txt'
      end
  end.

(** ** Package [bufio]: a [Scanner] over the lines of a string *)

Definition MaxScanTokenSize : Z := 64 * 1024.

(** One trailing carriage return goes. *)
Definition dropCR (data : gostring) : gostring :=
  match rev data with
  | c :: r => if Ascii.eqb c "013" then rev r else data
  | [] => data
  end.

(** The text cut at every line feed; what follows the last line feed is
    a line only when it is not empty. *)
Definition rawLines (s : gostring) : list gostring :=
  let pieces := strings_Split s "010" in
  match last pieces [] with
  | [] => removelast pieces
  | _ => pieces
  end.

Fixpoint takeShort (lines : list gostring) : list gostring :=
  match lines with
  | [] => []
  | l :: lines' =>
      if len l <? MaxScanTokenSize then l :: takeShort lines' else []
  end.

(** What the successive calls of [scanner.Text()] return while
    [scanner.Scan()] is true.  A line that does not fit the buffer ends
    the scan (with an error nobody reads). *)
Definition scanner_Lines (s : gostring) : list gostring :=
  map dropCR (takeShort (rawLines s)).

(** ** Snapshots *)

(** Modelled from the spec: the struct [VBoxSnapshot], which is declared
    in another file of the package.  A snapshot node has a name, a UUID,
    a current flag and an ordered sequence of child nodes; the fields
    bear the names this file uses.  [Children] holds pointers: addresses
    in the heap below. *)
Record VBoxSnapshot : Type := mkVBoxSnapshot {
  Name : gostring;
  UUID : gostring;
  IsCurrent : bool;
  Children : list nat
}.

(** A [*VBoxSnapshot]: nil, or the address of a struct. *)
Definition ptr := option nat.

Definition Heap := list VBoxSnapshot.

(** [new(VBoxSnapshot)] *)
Definition new (h : Heap) : Heap * nat :=
  (h ++ [mkVBoxSnapshot [] [] false []], length h).

Fixpoint update (h : Heap) (a : nat) (f : VBoxSnapshot -> VBoxSnapshot)
  : Heap :=
  match h, a with
  | c :: h', O => f c :: h'
  | c :: h', S a' => c :: update h' a' f
  | [], _ => []
  end.

(** A write through a pointer; through nil, a panic. *)
Definition store (h : Heap) (p : ptr) (f : VBoxSnapshot -> VBoxSnapshot)
  : Outcome Heap :=
  match p with
  | None => Panics NilPointerDereference
  | Some a => Returns (update h a f)
  end.

Definition setName (v : gostring) (c : VBoxSnapshot) : VBoxSnapshot :=
  mkVBoxSnapshot v (UUID c) (IsCurrent c) (Children c).
Definition setUUID (v : gostring) (c : VBoxSnapshot) : VBoxSnapshot :=
  mkVBoxSnapshot (Name c) v (IsCurrent c) (Children c).
Definition setIsCurrent (v : bool) (c : VBoxSnapshot) : VBoxSnapshot :=
  mkVBoxSnapshot (Name c) (UUID c) v (Children c).
Definition appendChild (child : nat) (c : VBoxSnapshot) : VBoxSnapshot :=
  mkVBoxSnapshot (Name c) (UUID c) (IsCurrent c) (Children c ++ [child]).

(** The tree a pointer gives access to, as a value. *)
#[warnings="-register-all"]
Inductive Snapshot : Type :=
| SnapshotNode (name uuid : gostring) (current : bool)
               (children : list Snapshot).

Fixpoint snapshotAt (fuel : nat) (h : Heap) (a : nat) : Snapshot :=
  match fuel, nth_error h a with
  | S fuel', Some c =>
      SnapshotNode (Name c) (UUID c) (IsCurrent c)
                   (map (snapshotAt fuel' h) (Children c))
  | _, _ => SnapshotNode [] [] false []
  end.

(** A child is allocated after its parent, so no path in a heap is
    longer than the heap. *)
Definition snapshotOf (h : Heap) (p : ptr) : option Snapshot :=
  match p with
  | None => None
  | Some a => Some (snapshotAt (length h) h a)
  end.

(** The variables of the loop of [LoadSnapshots]. *)
Record Locals : Type := mkLocals {
  heap : Heap;
  rootNode : ptr;
  currentIndicator : gostring;
  parentStack : stack.Stack ptr;
  node : ptr
}.

Definition noSnapshots : gostring :=
  "This machine does not have any snapshots".

(** [for i := 0; i < n; i++ { parentStack.Pop() }] *)
Fixpoint popTimes (n : nat) (s : stack.Stack ptr) : stack.Stack ptr :=
  match n with
  | O => s
  | S n' => popTimes n' (snd (stack.Pop s))
  end.

(** The adjustment of the indicator and of the stack before a node that
    is not the root is created. *)
Definition adjust (l : Locals) (path : gostring)
  : gostring * stack.Stack ptr :=
  let pathLenCur := strings_Count (currentIndicator l) "-" in
  let pathLen := strings_Count path "-" in
  if pathLen >? pathLenCur then
    (path, stack.Push (parentStack l) (node l))
  else if pathLen <? pathLenCur then
    (currentIndicator l, popTimes (Z.to_nat (pathLenCur - 1)) (parentStack l))
  else
    (currentIndicator l, parentStack l).

(** A [Name] record. *)
Definition nameRecord (l : Locals) (path value : gostring) : Outcome Locals :=
  l' <~ match rootNode l with
        | None =>
            let (h, a) := new (heap l) in
            Returns (mkLocals h (Some a) path (parentStack l) (Some a))
        | Some _ =>
            let (indicator, stk) := adjust l path in
            let (h, a) := new (heap l) in
            match stack.Peek stk with
            | None => Panics NilInterfaceConversion
            | Some parent =>
                let h' := match parent with
                          | Some pa => update h pa (appendChild a)
                          | None => h
                          end in
                Returns (mkLocals h' (rootNode l) indicator stk (Some a))
            end
        end ;;
  h <~ store (heap l') (node l') (setName value) ;;
  Returns (mkLocals h (rootNode l') (currentIndicator l') (parentStack l')
                    (node l')).

(** The body of the loop over the lines of the listing. *)
Definition scanLine (l : Locals) (txt : gostring) : Outcome Locals :=
  let idx := strings_Index txt "=" in
  if idx >? 0 then
    if strings_HasPrefix txt "Current" then
      h <~ store (heap l) (node l) (setIsCurrent true) ;;
      Returns (mkLocals h (rootNode l) (currentIndicator l) (parentStack l)
                        (node l))
    else
      let matches := SnapshotNamePartsRe_FindStringSubmatch txt in
      _ <~ index matches 0 ;;
      type <~ index matches 1 ;;
      path <~ index matches 2 ;;
      _ <~ index matches 3 ;;
      value <~ index matches 4 ;;
      if gostring_eqb type "Name" then
        nameRecord l path value
      else if gostring_eqb type "UUID" then
        h <~ store (heap l) (node l) (setUUID value) ;;
        Returns (mkLocals h (rootNode l) (currentIndicator l)
                          (parentStack l) (node l))
      else Returns l
  else Returns l.

Fixpoint scanLines (l : Locals) (lines : list gostring) : Outcome Locals :=
  match lines with
  | [] => Returns l
  | txt :: lines' => l' <~ scanLine l txt ;; scanLines l' lines'
  end.

Definition initialLocals : Locals :=
  mkLocals [] None [] (stack.New ptr) None.

(** Lines 262 to 317 of [LoadSnapshots]: from the listing to the root. *)
Definition parseSnapshots (stdoutString : gostring)
  : Outcome (option Snapshot) :=
  if negb (gostring_eqb stdoutString noSnapshots) then
    l <~ scanLines initialLocals (scanner_Lines stdoutString) ;;
    Returns (snapshotOf (heap l) (rootNode l))
  else Returns None.

(** The lines of [IsRunning]'s loop. *)
Fixpoint anyRunning (lines : list gostring) : bool :=
  match lines with
  | [] => false
  | line :: lines' =>
      let line := strings_TrimRight line ["013"%char] in
      if gostring_eqb line ("VMState=" ++ [dquote] ++ "running" ++ [dquote])
      then true
      else if gostring_eqb line
                ("VMState=" ++ [dquote] ++ "stopping" ++ [dquote])
      then true
      else if gostring_eqb line
                ("VMState=" ++ [dquote] ++ "paused" ++ [dquote])
      then true
      else anyRunning lines'
  end.

(** ** The driver *)

Record VBox42Driver : Type := mkDriver {
  (** The path to the "VBoxManage" application. *)
  VBoxManagePath : gostring
}.

(** [fmt.Errorf("VBoxManage error: %s", stderrString)] *)
Definition vboxManageError (stderrString : gostring) : error :=
  fmt_Errorf ("VBoxManage error: " ++ stderrString).

Section Driver.

Variable w : World.
Variable d : VBox42Driver.

(** The method [GetCurrentSnapshot] of [*VBoxSnapshot] is declared with
    the struct, in another file of the package. *)
Variable VBoxSnapshot_GetCurrentSnapshot :
  option Snapshot -> Outcome (option Snapshot).

Definition VBoxManageWithOutput (args : list gostring)
  : Exec (gostring * option error) :=
  r <- cmd_Run w (mkCmd (VBoxManagePath d) args) ;;
  let err := ran_err r in
  let stdoutString := strings_TrimSpace (ran_stdout r) in
  let stderrString := strings_TrimSpace (ran_stderr r) in
  let err :=
    match err with
    | Some (exec_ExitError _) => Some (vboxManageError stderrString)
    | _ => err
    end in
  let err :=
    match err with
    | None =>
        (* Sometimes VBoxManage gives us an error with a zero exit code,
           so we also regexp match an error string. *)
        if MatchString errorBannerRe stderrString
        then Some (vboxManageError stderrString)
        else None
    | Some _ => err
    end in
  ret (stdoutString, err).

Definition VBoxManage (args : list gostring) : Exec (option error) :=
  ' (_, err) <- VBoxManageWithOutput args ;;
  ret err.

Definition Version : Exec (gostring * option error) :=
  r <- cmd_Run w (mkCmd (VBoxManagePath d) ["--version" : gostring]) ;;
  match ran_err r with
  | Some err => ret ([], Some err)
  | None =>
      let versionOutput := strings_TrimSpace (ran_stdout r) in
      (* If the "--version" output contains vboxdrv, then this is
         indicative of problems with the VirtualBox setup and we
         shouldn't really continue, whether or not we can read the
         version. *)
      if strings_Contains versionOutput "vboxdrv" then
        ret ([], Some (fmt_Errorf ("VirtualBox is not properly setup: "
                                     ++ versionOutput)))
      else
        let matches := versionRe_FindAllStringSubmatch versionOutput in
        match matches with
        | [] => ret ([], Some (fmt_Errorf ("No version found: "
                                             ++ versionOutput)))
        | m0 :: _ =>
            if negb (Z.of_nat (length m0) =? 2) then
              ret ([], Some (fmt_Errorf ("No version found: "
                                           ++ versionOutput)))
            else
              m01 <- lift (index m0 1) ;;
              ret (m01, None)
        end
  end.

Definition CreateSATAController (vmName name : gostring) (portcount : Z)
  : Exec (option error) :=
  ' (version, err) <- Version ;;
  match err with
  | Some _ => ret err
  | None =>
      let portCountArg : gostring := "--portcount" in
      match versionUtil.NewVersion version with
      | inr err => ret (Some err)
      | inl currentVersion =>
          match versionUtil.NewVersion "4.3" with
          | inr err => ret (Some err)
          | inl firstVersionUsingPortCount =>
              let portCountArg : gostring :=
                if versionUtil.LessThan currentVersion
                                        firstVersionUsingPortCount
                then "--sataportcount"
                else portCountArg in
              let command : list gostring :=
                [ "storagectl" : gostring; vmName;
                  "--name" : gostring; name;
                  "--add" : gostring; "sata" : gostring;
                  portCountArg; strconv_Itoa portcount ] in
              VBoxManage command
          end
      end
  end.

Definition IsRunning (name : gostring) : Exec (bool * option error) :=
  r <- cmd_Run w (mkCmd (VBoxManagePath d)
                        [ "showvminfo" : gostring; name;
                          "--machinereadable" : gostring ]) ;;
  match ran_err r with
  | Some err => ret (false, Some err)
  | None => ret (anyRunning (strings_Split (ran_stdout r) "010"), None)
  end.

(** LoadSnapshots load the snapshots for a VM instance *)
Definition LoadSnapshots (vmName : gostring)
  : Exec (option Snapshot * option error) :=
  if gostring_eqb vmName [] then
    panic (PanicString "Argument empty exception: vmName")
  else
    ' (stdoutString, err) <-
        VBoxManageWithOutput [ "snapshot" : gostring; vmName;
                               "list" : gostring;
                               "--machinereadable" : gostring ] ;;
    match err with
    | Some _ => ret (None, err)
    | None =>
        rootNode <- lift (parseSnapshots stdoutString) ;;
        ret (rootNode, None)
    end.

Definition CreateSnapshot (vmname snapshotName : gostring)
  : Exec (option error) :=
  if gostring_eqb vmname [] then
    panic (PanicString "Argument empty exception: vmname")
  else
    VBoxManage [ "snapshot" : gostring; vmname; "take" : gostring;
                 snapshotName ].

Definition HasSnapshots (vmname : gostring) : Exec (bool * option error) :=
  if gostring_eqb vmname [] then
    panic (PanicString "Argument empty exception: vmname")
  else
    ' (sn, err) <- LoadSnapshots vmname ;;
    match err with
    | Some _ => ret (false, err)
    | None => ret (match sn with Some _ => true | None => false end, None)
    end.

Definition GetCurrentSnapshot (vmname : gostring)
  : Exec (option Snapshot * option error) :=
  if gostring_eqb vmname [] then
    panic (PanicString "Argument empty exception: vmname")
  else
    ' (sn, err) <- LoadSnapshots vmname ;;
    match err with
    | Some _ => ret (None, err)
    | None =>
        current <- lift (VBoxSnapshot_GetCurrentSnapshot sn) ;;
        ret (current, None)
    end.

(** The snapshot argument of the two functions below is a pointer; they
    read its [UUID] field only. *)
Definition snapshotUUID (sn : Snapshot) : gostring :=
  match sn with SnapshotNode _ uuid _ _ => uuid end.

Definition SetSnapshot (vmname : gostring) (sn : option Snapshot)
  : Exec (option error) :=
  if gostring_eqb vmname [] then
    panic (PanicString "Argument empty exception: vmname")
  else
    match sn with
    | None => panic (PanicString "Argument null exception: sn")
    | Some sn =>
        VBoxManage [ "snapshot" : gostring; vmname; "restore" : gostring;
                     snapshotUUID sn ]
    end.

Definition DeleteSnapshot (vmname : gostring) (sn : option Snapshot)
  : Exec (option error) :=
  if gostring_eqb vmname [] then
    panic (PanicString "Argument empty exception: vmname")
  else
    match sn with
    | None => panic (PanicString "Argument null exception: sn")
    | Some sn =>
        VBoxManage [ "snapshot" : gostring; vmname; "delete" : gostring;
                     snapshotUUID sn ]
    end.

End Driver.

(** ** What the specification speaks of *)

(** The text holds the banner of a tool error: [VBoxManage], one or more
    dots and lower-case letters, then [: error:]. *)
Definition hasErrorBanner (s : gostring) : Prop :=
  exists pre mid post,
    s = pre ++ "VBoxManage" ++ mid ++ ": error:" ++ post /\
    mid <> [] /\
    forallb (Or (Chr ".") (Range "a" "z")) mid = true.

Definition hasSubstring (s sub : gostring) : Prop :=
  exists pre post, s = pre ++ sub ++ post.

(** [run] is the leading run of dots and digits of [s]: the bytes of [s]
    up to the first one that is neither. *)
Definition leadingRun (s run : gostring) : Prop :=
  exists rest,
    s = run ++ rest /\
    forallb dotOrDigit run = true /\
    match rest with
    | [] => True
    | c :: _ => dotOrDigit c = false
    end.

(** The three states that count as running, as the tool prints them. *)
Definition vmState (state : gostring) : gostring :=
  "VMState=" ++ [dquote] ++ state ++ [dquote].

Definition reportsRunning (line : gostring) : Prop :=
  line = vmState "running" \/ line = vmState "stopping"
  \/ line = vmState "paused".

(** A version with these segments is below 4.3. *)
Definition below_4_3 (major minor : Z) : Prop :=
  major < 4 \/ (major = 4 /\ minor < 3).

(** The command [CreateSATAController] builds, with the flag left open. *)
Definition sataCommand (vmName name flag : gostring) (portcount : Z)
  : list gostring :=
  [ "storagectl" : gostring; vmName; "--name" : gostring; name;
    "--add" : gostring; "sata" : gostring; flag; strconv_Itoa portcount ].

(** ** Sample runs *)

Definition LF : ascii := "010"%char.
Definition CR : ascii := "013"%char.

Definition sampleDriver : VBox42Driver := mkDriver "/usr/bin/VBoxManage".

(** A world in which every command ends the same way. *)
Definition always (r : Ran) : World := fun _ _ => r.

(** A world in which the tool prints [v] for [--version] and is silent
    and successful otherwise. *)
Definition toolOfVersion (v : gostring) : World :=
  fun _ c =>
    match Args c with
    | [a] => if gostring_eqb a "--version" then mkRan None v []
             else mkRan None [] []
    | _ => mkRan None [] []
    end.

Definition silentBanner : Ran :=
  mkRan None ("done" ++ [LF])
        ("VBoxManage.exe: error: The machine is not mutable" ++ [LF]).

Definition plainWarning : Ran :=
  mkRan None ("done" ++ [LF]) ("VBoxManage: warning: slow disk" ++ [LF]).

Definition exitedOne : Ran :=
  mkRan (Some (exec_ExitError 1)) ("partial" ++ [LF])
        ("VBoxManage: error: Could not find a registered machine" ++ [LF]).

Definition notStarted : Ran :=
  mkRan (Some (exec_StartError
                 "fork/exec /usr/bin/VBoxManage: no such file or directory"))
        [] [].

Definition record (key path value : gostring) : gostring :=
  "Snapshot" ++ key ++ path ++ "=" ++ [dquote] ++ value ++ [dquote].

(** A root, its child [b] with a child [c], and a second child [d] of
    the root. *)
Definition twoBranches : list gostring :=
  [ record "Name" "" "a"; record "Name" "-1" "b";
    record "Name" "-1-1" "c"; record "Name" "-2" "d" ].

(** The same with a child [e] of [d]. *)
Definition twoBranchesDeep : list gostring :=
  twoBranches ++ [ record "Name" "-2-1" "e" ].

Fixpoint joinLines (lines : list gostring) : gostring :=
  match lines with
  | [] => []
  | [l] => l
  | l :: lines' => l ++ [LF] ++ joinLines lines'
  end.

(** The variables of the loop after the first three records of
    [twoBranches]. *)
Definition afterThree : Locals :=
  mkLocals
    [ mkVBoxSnapshot "a" [] false [1%nat];
      mkVBoxSnapshot "b" [] false [2%nat];
      mkVBoxSnapshot "c" [] false [] ]
    (Some 0%nat) "-1-1" [Some 1%nat; Some 0%nat] (Some 2%nat).

(** ** The heap of the parser as a forest *)

(** A pointer is nil or the address of a cell. *)

Definition ptrOK (h : Heap) (p : ptr) : Prop :=
  match p with
  | Some a => (a < length h)%nat
  | None => True
  end.

(** A child is allocated after its parent. *)
Definition childrenOK (h : Heap) : Prop :=
  forall a c child,
    nth_error h a = Some c -> In child (Children c) ->
    (a < child < length h)%nat.

(** What every round of the loop keeps. *)
Record Inv (l : Locals) : Prop := mkInv {
  inv_children : childrenOK (heap l);
  inv_node : ptrOK (heap l) (node l);
  inv_root : ptrOK (heap l) (rootNode l);
  inv_stack : Forall (ptrOK (heap l)) (parentStack l)
}.

(** ** The rest of the driver *)

(** [strings.Trim(s, cutset)] for a cutset of ASCII bytes. *)
Definition strings_Trim (s : gostring) (cutset : list ascii) : gostring :=
  rev (dropLeading cutset (rev (dropLeading cutset s))).

Definition additionsLabel : gostring := "Default Guest Additions ISO:".

(** ["Default Guest Additions ISO:(.+)"]: the dot is any byte but the
    line feed. *)
Definition DefaultGuestAdditionsRe : regex :=
  Cat (Lit additionsLabel) (Plus (Class (Not (Chr LF)))).

(** A match of [DefaultGuestAdditionsRe] that starts at the first byte
    of [s]: the text of the match and of its group, which is greedy and
    takes every byte up to the line feed or the end. *)
Definition additionsAt (s : gostring) : option (list gostring) :=
  match stripPrefix additionsLabel s with
  | None => None
  | Some rest =>
      match fst (span (Not (Chr LF)) rest) with
      | [] => None
      | group => Some [additionsLabel ++ group; group]
      end
  end.

(** [DefaultGuestAdditionsRe.FindStringSubmatch(line)]: the leftmost
    match, nil when there is none. *)
Fixpoint DefaultGuestAdditionsRe_FindStringSubmatch (line : gostring)
  : list gostring :=
  match additionsAt line with
  | Some m => m
  | None =>
      match line with
      | [] => []
      | _ :: line' => DefaultGuestAdditionsRe_FindStringSubmatch line'
      end
  end.

(** The loop of [Iso] over the lines of the output: the name found, if
    any. *)
Fixpoint findAdditions (lines : list gostring) : Outcome (option gostring) :=
  match lines with
  | [] => Returns None
  | line :: lines' =>
      (* Need to trim off CR character when running in windows.
         Trimming whitespaces at this point helps to filter out empty
         value *)
      let line := strings_TrimRight line [" "%char; CR] in
      let matches := DefaultGuestAdditionsRe_FindStringSubmatch line in
      match matches with
      | [] => findAdditions lines'
      | _ =>
          m1 <~ index matches 1 ;;
          Returns (Some (strings_Trim m1 [" "%char; CR; LF]))
      end
  end.

Definition additionsNotFound : error :=
  fmt_Errorf
    ("Cannot find " ++ [dquote] ++ "Default Guest Additions ISO" ++ [dquote]
       ++ " in vboxmanage output (or it is empty)").

(** Modelled from the spec: [retry.Config{Tries: tries}.Run], declared
    in another package of the repository.  The operation is invoked
    again after each failure, [tries] times at most, and the last error
    is returned when every attempt fails.  The wait between two attempts
    changes no result, and the context of [Delete] is never cancelled. *)
Fixpoint retry_Run (tries : nat) (last : option error)
    (fn : Exec (option error)) : Exec (option error) :=
  match tries with
  | O => ret last
  | S tries' =>
      err <- fn ;;
      match err with
      | None => ret None
      | Some _ => retry_Run tries' err fn
      end
  end.



Section DriverRest.

Variable w : World.
Variable d : VBox42Driver.

Definition CreateSCSIController (vmName name : gostring)
  : Exec (option error) :=
  let command : list gostring :=
    [ "storagectl" : gostring; vmName;
      "--name" : gostring; name;
      "--add" : gostring; "scsi" : gostring;
      "--controller" : gostring; "LSILogic" : gostring ] in
  VBoxManage w d command.

Definition Delete (name : gostring) : Exec (option error) :=
  retry_Run 5 None
    (VBoxManage w d [ "unregistervm" : gostring; name;
                      "--delete" : gostring ]).

Definition Iso : Exec (gostring * option error) :=
  r <- cmd_Run w (mkCmd (VBoxManagePath d)
                        [ "list" : gostring; "systemproperties" : gostring ]) ;;
  match ran_err r with
  | Some err => ret ([], Some err)
  | None =>
      found <- lift (findAdditions (strings_Split (ran_stdout r) LF)) ;;
      match found with
      | Some isoname => ret (isoname, None)
      | None => ret ([], Some additionsNotFound)
      end
  end.

Definition Import (name path : gostring) (flags : list gostring)
  : Exec (option error) :=
  let args : list gostring :=
    [ "import" : gostring; path;
      "--vsys" : gostring; "0" : gostring;
      "--vmname" : gostring; name ] in
  let args := args ++ flags in
  VBoxManage w d args.

(** The two seconds [Stop] sleeps after a successful power-off change
    no result. *)
Definition Stop (name : gostring) : Exec (option error) :=
  err <- VBoxManage w d [ "controlvm" : gostring; name;
                          "poweroff" : gostring ] ;;
  match err with
  | Some _ => ret err
  | None => ret None
  end.



Definition Verify : option error := None.

End DriverRest.

(** The line, its trailing spaces and carriage returns removed, holds
    the label of the guest additions followed by something. *)
Definition carriesAdditions (line : gostring) : Prop :=
  exists pre value,
    value <> [] /\
    strings_TrimRight line [" "%char; CR] = pre ++ additionsLabel ++ value.

(** Output of [list systemproperties] in which the label of the guest
    additions is followed by blanks only, and one in which it is
    followed by a path. *)
Definition additionsBlank : Ran :=
  mkRan None
        ("API version: 6_1" ++ [CR; LF]
           ++ "Default Guest Additions ISO:   " ++ [CR; LF]) [].

Definition additionsSet : Ran :=
  mkRan None
        ("API version: 6_1" ++ [LF]
           ++ "Default Guest Additions ISO:  /opt/VBoxGuestAdditions.iso "
           ++ [CR; LF]) [].

(** ** The listing, line by line *)

(** The line is processed as a [Name] record: it has ["="] past its
    first byte, does not start with ["Current"], and the first group of
    the match is ["Name"]. *)
Definition isNameRecord (txt : gostring) : bool :=
  (strings_Index txt "=" >? 0)
  && negb (strings_HasPrefix txt "Current")
  && gostring_eqb (nth 1 (SnapshotNamePartsRe_FindStringSubmatch txt) [])
                  "Name".

(** A path of the tool: any number of [-[1-9]+]. *)
Definition wellFormedPath (path : gostring) : Prop :=
  matches (Star pathGroupRe) path.

(** A value the tool can print between double quotes. *)
Definition quoteFree (value : gostring) : Prop :=
  forallb (Not (Chr dquote)) value = true.

(** A pointer that is not nil. *)
Definition notNil (p : ptr) : Prop := p <> None.

(** All the children of all the cells, in the order of the heap. *)
Definition allChildren (h : Heap) : list nat := concat (map Children h).

(** The heap is a tree: the first cell is the root, and every other cell
    is a child of exactly one cell.  The current node and the entries of
    the stack are nil only while there is no root. *)
Record TreeShaped (l : Locals) : Prop := mkTreeShaped {
  tree_forest : Inv l;
  tree_parents :
    Permutation.Permutation (allChildren (heap l))
                            (seq 1 (length (heap l) - 1));
  tree_root :
    rootNode l = match heap l with [] => None | _ :: _ => Some 0%nat end;
  tree_node : heap l <> [] -> notNil (node l);
  tree_stack : Forall notNil (parentStack l)
}.

(** ** A chain of snapshots: each one taken from the one before *)

(** The path of the snapshot at a depth of the chain: [-1], so many
    times. *)
Fixpoint chainPath (depth : nat) : gostring :=
  match depth with
  | O => []
  | S depth' => "-1" ++ chainPath depth'
  end.

(** The listing of a chain, from a depth on: for each snapshot, given
    by its name and its UUID, a [Name] record and a [UUID] record. *)
Fixpoint chainLines (depth : nat) (entries : list (gostring * gostring))
  : list gostring :=
  match entries with
  | [] => []
  | (name, uuid) :: entries' =>
      record "Name" (chainPath depth) name
        :: record "UUID" (chainPath depth) uuid
        :: chainLines (S depth) entries'
  end.

(** The cells of a chain allocated from the address [a] on: each has the
    next for only child, and [current] is the flag of the last. *)
Fixpoint chainCells (current : bool) (a : nat)
    (entries : list (gostring * gostring)) : Heap :=
  match entries with
  | [] => []
  | (name, uuid) :: entries' =>
      match entries' with
      | [] => [mkVBoxSnapshot name uuid current []]
      | _ :: _ =>
          mkVBoxSnapshot name uuid false [S a]
            :: chainCells current (S a) entries'
      end
  end.

(** The tree of a chain. *)
Fixpoint chainTree (current : bool) (entries : list (gostring * gostring))
  : option Snapshot :=
  match entries with
  | [] => None
  | (name, uuid) :: entries' =>
      Some match chainTree current entries' with
           | Some t => SnapshotNode name uuid false [t]
           | None => SnapshotNode name uuid current []
           end
  end.

(** The variables of the loop after the records of a chain. *)
Definition chainState (done : list (gostring * gostring)) : Locals :=
  mkLocals (chainCells false 0 done) (Some 0%nat)
           (chainPath (length done - 1))
           (map Some (rev (seq 0 (length done - 1))))
           (Some (length done - 1)%nat).

(** A line that starts with ["Current"] and has its ["="]. *)
Definition isCurrentLine (txt : gostring) : Prop :=
  strings_Index txt "=" > 0 /\ strings_HasPrefix txt "Current" = true.

Definition quoteFreeEntry (e : gostring * gostring) : Prop :=
  quoteFree (fst e) /\ quoteFree (snd e).

(** * Verification *)

(** ** The matcher decides the language of a pattern *)

Module RegexpFacts.

Lemma matches_Cat_inv r1 r2 s :
  matches (Cat r1 r2) s ->
  exists s1 s2, s = s1 ++ s2 /\ matches r1 s1 /\ matches r2 s2.
Proof.
  intros H. inversion H; subst. eauto.
Qed.

Lemma matches_Alt_inv r1 r2 s :
  matches (Alt r1 r2) s -> matches r1 s \/ matches r2 s.
Proof.
  intros H. inversion H; subst; auto.
Qed.

Lemma matches_Class_inv p s :
  matches (Class p) s -> exists c, s = [c] /\ p c = true.
Proof.
  intros H. inversion H; subst. eauto.
Qed.

Lemma matches_Eps_inv s : matches Eps s -> s = [].
Proof.
  intros H. now inversion H.
Qed.

Lemma matches_Empty_inv s : ~ matches Empty s.
Proof.
  intros H. inversion H.
Qed.

(** A non-empty word of a star starts with a non-empty round. *)
Lemma matches_Star_cons r c s :
  matches (Star r) (c :: s) ->
  exists s1 s2,
    s = s1 ++ s2 /\ matches r (c :: s1) /\ matches (Star r) s2.
Proof.
  intros H.
  remember (Star r) as sr eqn:Er.
  remember (c :: s) as cs eqn:Es.
  revert c s Es.
  induction H; intros c0 s0 Es; try discriminate.
  injection Er as ->.
  destruct s1 as [|x s1'].
  - simpl in Es. apply IHmatches2; auto.
  - simpl in Es. injection Es as -> <-.
    exists s1', s2. auto.
Qed.

Lemma nullable_correct r : nullable r = true <-> matches r [].
Proof.
  split.
  - induction r; simpl; intros H; try discriminate.
    + constructor.
    + apply andb_prop in H as [H1 H2].
      refine (MCat (s1 := []) (s2 := []) _ _); auto.
    + apply orb_prop in H as [H | H]; [apply MAltL | apply MAltR]; auto.
    + constructor.
  - induction r; simpl; intros H; auto.
    + now apply matches_Empty_inv in H.
    + apply matches_Class_inv in H as (c & E & _). discriminate.
    + apply matches_Cat_inv in H as (s1 & s2 & E & H1 & H2).
      symmetry in E. apply app_eq_nil in E as [-> ->].
      now rewrite IHr1, IHr2.
    + apply matches_Alt_inv in H as [H | H].
      * now rewrite IHr1.
      * rewrite IHr2 by assumption. apply orb_true_r.
Qed.

Lemma deriv_correct r : forall c s,
  matches (deriv c r) s <-> matches r (c :: s).
Proof.
  induction r; intros c s; simpl.
  - split; intros H; now apply matches_Empty_inv in H.
  - split; intros H.
    + now apply matches_Empty_inv in H.
    + apply matches_Eps_inv in H. discriminate.
  - split; intros H.
    + destruct (p c) eqn:Ep.
      * apply matches_Eps_inv in H. subst. now constructor.
      * now apply matches_Empty_inv in H.
    + apply matches_Class_inv in H as (c' & E & Hp).
      injection E as <- ->. rewrite Hp. constructor.
  - split; intros H.
    + assert (Hc : matches (Cat (deriv c r1) r2) s -> matches (Cat r1 r2) (c :: s)).
      { intros Hcat.
        apply matches_Cat_inv in Hcat as (s1 & s2 & -> & H1 & H2).
        change (c :: s1 ++ s2) with ((c :: s1) ++ s2).
        constructor; auto. now apply IHr1. }
      destruct (nullable r1) eqn:En; auto.
      apply matches_Alt_inv in H as [H | H]; auto.
      refine (MCat (s1 := []) (s2 := c :: s) _ _);
        [now apply nullable_correct | now apply IHr2].
    + apply matches_Cat_inv in H as (s1 & s2 & E & H1 & H2).
      destruct s1 as [|x s1']; simpl in E.
      * subst s2. apply nullable_correct in H1. rewrite H1.
        apply MAltR. now apply IHr2.
      * injection E as <- ->.
        assert (Hc : matches (Cat (deriv c r1) r2) (s1' ++ s2)).
        { constructor; auto. now apply IHr1. }
        destruct (nullable r1); auto. now apply MAltL.
  - split; intros H.
    + apply matches_Alt_inv in H as [H | H];
        [apply MAltL; now apply IHr1 | apply MAltR; now apply IHr2].
    + apply matches_Alt_inv in H as [H | H];
        [apply MAltL; now apply IHr1 | apply MAltR; now apply IHr2].
  - split; intros H.
    + apply matches_Cat_inv in H as (s1 & s2 & -> & H1 & H2).
      change (c :: s1 ++ s2) with ((c :: s1) ++ s2).
      constructor; auto. now apply IHr.
    + apply matches_Star_cons in H as (s1 & s2 & -> & H1 & H2).
      constructor; auto. now apply IHr.
Qed.

Lemma fullMatch_correct s : forall r,
  fullMatch r s = true <-> matches r s.
Proof.
  induction s as [|c s IH]; intros r; simpl.
  - apply nullable_correct.
  - rewrite IH. apply deriv_correct.
Qed.

Lemma matches_anything s : matches anything s.
Proof.
  unfold anything. induction s as [|c s IH].
  - constructor.
  - change (c :: s) with ([c] ++ s). constructor; auto. now constructor.
Qed.

(** [MatchString] is true exactly when a substring is in the language. *)
Lemma MatchString_correct re s :
  MatchString re s = true <->
  exists pre m post, s = pre ++ m ++ post /\ matches re m.
Proof.
  unfold MatchString. rewrite fullMatch_correct. split.
  - intros H.
    apply matches_Cat_inv in H as (pre & s2 & -> & _ & H).
    apply matches_Cat_inv in H as (m & post & -> & H & _).
    eauto.
  - intros (pre & m & post & -> & H).
    constructor; [apply matches_anything|].
    constructor; [assumption | apply matches_anything].
Qed.

Lemma MatchPrefix_correct re s :
  MatchPrefix re s = true <->
  exists m post, s = m ++ post /\ matches re m.
Proof.
  unfold MatchPrefix. rewrite fullMatch_correct. split.
  - intros H.
    apply matches_Cat_inv in H as (m & post & -> & H & _). eauto.
  - intros (m & post & -> & H).
    constructor; [assumption | apply matches_anything].
Qed.

Lemma matches_Lit l s : matches (Lit l) s <-> s = l.
Proof.
  revert s. induction l as [|c l IH]; intros s; simpl.
  - split; [apply matches_Eps_inv | intros ->; constructor].
  - split.
    + intros H. apply matches_Cat_inv in H as (s1 & s2 & -> & H1 & H2).
      apply matches_Class_inv in H1 as (c' & -> & Hc).
      apply Ascii.eqb_eq in Hc. subst c'. apply IH in H2. now subst.
    + intros ->. change (c :: l) with ([c] ++ l).
      constructor; [constructor; apply Ascii.eqb_refl | now apply IH].
Qed.

Lemma matches_Star_Class p s :
  matches (Star (Class p)) s <-> forallb p s = true.
Proof.
  split.
  - induction s as [|c s IH]; intros H; simpl; auto.
    apply matches_Star_cons in H as (s1 & s2 & -> & H1 & H2).
    apply matches_Class_inv in H1 as (c' & E & Hp).
    injection E as Ec Es. subst c' s1. simpl in H2. rewrite Hp. simpl. auto.
  - induction s as [|c s IH]; simpl; intros H.
    + constructor.
    + apply andb_prop in H as [Hc Hs].
      change (c :: s) with ([c] ++ s). constructor; auto. now constructor.
Qed.

Lemma matches_Plus_Class p s :
  matches (Plus (Class p)) s <-> s <> [] /\ forallb p s = true.
Proof.
  unfold Plus. split.
  - intros H. apply matches_Cat_inv in H as (s1 & s2 & -> & H1 & H2).
    apply matches_Class_inv in H1 as (c & -> & Hc).
    apply matches_Star_Class in H2. simpl. rewrite Hc, H2.
    split; [discriminate | reflexivity].
  - intros [Hne H]. destruct s as [|c s]; [contradiction|].
    simpl in H. apply andb_prop in H as [Hc Hs].
    change (c :: s) with ([c] ++ s).
    constructor; [now constructor | now apply matches_Star_Class].
Qed.

End RegexpFacts.

Import RegexpFacts.

(** ** The command executor *)

Lemma errorBannerRe_correct s :
  MatchString errorBannerRe s = true <-> hasErrorBanner s.
Proof.
  rewrite MatchString_correct. unfold hasErrorBanner, errorBannerRe. split.
  - intros (pre & m & post & -> & H).
    apply matches_Cat_inv in H as (s1 & s2 & -> & H1 & H).
    apply matches_Cat_inv in H as (mid & s3 & -> & H2 & H3).
    apply matches_Lit in H1. apply matches_Lit in H3. subst s1 s3.
    apply matches_Plus_Class in H2 as [Hne Hall].
    exists pre, mid, post. repeat rewrite <- app_assoc. auto.
  - intros (pre & mid & post & -> & Hne & Hall).
    exists pre, ("VBoxManage" ++ mid ++ ": error:"), post. split.
    + repeat rewrite <- app_assoc. reflexivity.
    + constructor; [now apply matches_Lit|].
      constructor; [now apply matches_Plus_Class | now apply matches_Lit].
Qed.

(** C1: when the subprocess exits with status zero, a trimmed standard
    error that holds the banner [VBoxManage([.a-z]+?): error:] makes the
    result a failure whose message is built from that trimmed standard
    error, and one that does not hold it makes the result a success;
    either way the trimmed standard output is the payload. *)
Theorem VBoxManageWithOutput_exit_zero (w : World) (d : VBox42Driver)
    (args : list gostring) (h : History) :
  let c := mkCmd (VBoxManagePath d) args in
  let stdoutString := strings_TrimSpace (ran_stdout (w h c)) in
  let stderrString := strings_TrimSpace (ran_stderr (w h c)) in
  ran_err (w h c) = None ->
  (hasErrorBanner stderrString ->
   VBoxManageWithOutput w d args h =
     (Returns (stdoutString,
               Some (fmt_Errorf ("VBoxManage error: " ++ stderrString))),
      h ++ [c]))
  /\
  (~ hasErrorBanner stderrString ->
   VBoxManageWithOutput w d args h =
     (Returns (stdoutString, None), h ++ [c])).
Proof.
  intros c stdoutString stderrString Herr.
  unfold VBoxManageWithOutput, bind, cmd_Run, ret. fold c.
  rewrite Herr. fold stderrString stdoutString.
  split; intros Hb.
  - apply errorBannerRe_correct in Hb. rewrite Hb. reflexivity.
  - destruct (MatchString errorBannerRe stderrString) eqn:E.
    + apply errorBannerRe_correct in E. contradiction.
    + reflexivity.
Qed.

Lemma VBoxManageWithOutput_exit_zero_witness :
  VBoxManageWithOutput (always silentBanner) sampleDriver ["list" : gostring] []
  = (Returns ("done" : gostring,
              Some (fmt_Errorf
                      ("VBoxManage error: "
                         ++ "VBoxManage.exe: error: The machine is not mutable"))),
     [mkCmd "/usr/bin/VBoxManage" ["list" : gostring]])
  /\
  VBoxManageWithOutput (always plainWarning) sampleDriver ["list" : gostring] []
  = (Returns ("done" : gostring, None),
     [mkCmd "/usr/bin/VBoxManage" ["list" : gostring]]).
Proof.
  split.
  - apply (VBoxManageWithOutput_exit_zero (always silentBanner) sampleDriver
             ["list" : gostring] [] eq_refl).
    apply errorBannerRe_correct. vm_compute. reflexivity.
  - apply (VBoxManageWithOutput_exit_zero (always plainWarning) sampleDriver
             ["list" : gostring] [] eq_refl).
    intros Hb. apply errorBannerRe_correct in Hb. vm_compute in Hb.
    discriminate.
Defined.

(** C7, as the specification has it, fails when the subprocess cannot be
    started: the error of [cmd.Run] comes back as it is, and its message
    is not the one built from the trimmed standard error. *)
Lemma VBoxManageWithOutput_not_started_counterexample :
  let c := mkCmd "/usr/bin/VBoxManage" ["list" : gostring] in
  let started :=
    exec_StartError
      "fork/exec /usr/bin/VBoxManage: no such file or directory" in
  ran_err (always notStarted [] c) = Some started /\
  VBoxManageWithOutput (always notStarted) sampleDriver ["list" : gostring] []
  = (Returns ([], Some started), [c]) /\
  Error started
  <> "VBoxManage error: "
       ++ strings_TrimSpace (ran_stderr (always notStarted [] c)).
Proof.
  repeat split. vm_compute. discriminate.
Qed.

(** C7, amended: when the subprocess exits with a status other than zero
    the result is a failure whose message is ["VBoxManage error: "]
    followed by the trimmed standard error, whatever the standard output;
    when it cannot be started the result is a failure too, the error of
    [cmd.Run] itself, unchanged.  The trimmed standard output is returned
    beside the error in both cases. *)
Theorem VBoxManageWithOutput_failed_run (w : World) (d : VBox42Driver)
    (args : list gostring) (h : History) (e : error) :
  let c := mkCmd (VBoxManagePath d) args in
  let stdoutString := strings_TrimSpace (ran_stdout (w h c)) in
  let stderrString := strings_TrimSpace (ran_stderr (w h c)) in
  ran_err (w h c) = Some e ->
  exists failure,
    VBoxManageWithOutput w d args h
    = (Returns (stdoutString, Some failure), h ++ [c]) /\
    match e with
    | exec_ExitError _ =>
        Error failure = "VBoxManage error: " ++ stderrString
    | _ => failure = e
    end.
Proof.
  intros c stdoutString stderrString Herr.
  unfold VBoxManageWithOutput, bind, cmd_Run, ret. fold c.
  rewrite Herr. fold stderrString stdoutString.
  destruct e; eexists; split; reflexivity.
Qed.

Lemma VBoxManageWithOutput_failed_run_witness :
  ran_err (always exitedOne [] (mkCmd (VBoxManagePath sampleDriver)
                                      ["list" : gostring]))
  = Some (exec_ExitError 1) /\
  exists failure,
    VBoxManageWithOutput (always exitedOne) sampleDriver ["list" : gostring] []
    = (Returns ("partial" : gostring, Some failure),
       [mkCmd "/usr/bin/VBoxManage" ["list" : gostring]]) /\
    Error failure
    = "VBoxManage error: "
        ++ "VBoxManage: error: Could not find a registered machine".
Proof.
  split; [reflexivity|].
  exact (VBoxManageWithOutput_failed_run (always exitedOne) sampleDriver
           ["list" : gostring] [] eq_refl).
Defined.

(** ** Strings *)

Lemma gostring_eqb_eq a : forall b, gostring_eqb a b = true <-> a = b.
Proof.
  induction a as [|x a IH]; intros [|y b]; simpl; split; intros H;
    try reflexivity; try discriminate.
  - apply andb_prop in H as [Hx Ha].
    apply Ascii.eqb_eq in Hx. apply IH in Ha. now subst.
  - injection H as -> ->. rewrite Ascii.eqb_refl. now apply IH.
Qed.

Lemma gostring_eqb_refl a : gostring_eqb a a = true.
Proof.
  now apply gostring_eqb_eq.
Qed.

Lemma gostring_eqb_neq a b : gostring_eqb a b = false <-> a <> b.
Proof.
  split.
  - intros H E. apply gostring_eqb_eq in E. congruence.
  - intros H. destruct (gostring_eqb a b) eqn:E; auto.
    apply gostring_eqb_eq in E. contradiction.
Qed.

Lemma strings_HasPrefix_correct prefix : forall s,
  strings_HasPrefix s prefix = true <-> exists post, s = prefix ++ post.
Proof.
  induction prefix as [|p prefix IH]; intros s; simpl.
  - destruct s; split; eauto.
  - destruct s as [|c s]; split.
    + discriminate.
    + intros (post & E). discriminate.
    + intros H. apply andb_prop in H as [Hc Hs].
      apply Ascii.eqb_eq in Hc. apply IH in Hs as (post & ->).
      subst. eauto.
    + intros (post & E). injection E as -> ->.
      apply andb_true_intro. split; [apply Ascii.eqb_refl|].
      apply IH. eauto.
Qed.

Lemma strings_Contains_correct sub s :
  strings_Contains s sub = true <-> hasSubstring s sub.
Proof.
  unfold hasSubstring. induction s as [|c s IH].
  - cbn [strings_Contains]. rewrite orb_false_r, strings_HasPrefix_correct.
    split.
    + intros (post & E). exists [], post. assumption.
    + intros (pre & post & E). destruct pre; [eauto|discriminate].
  - cbn [strings_Contains]. rewrite orb_true_iff, strings_HasPrefix_correct, IH.
    split.
    + intros [(post & E) | (pre & post & E)].
      * exists [], post. assumption.
      * exists (c :: pre), post. simpl. now rewrite E.
    + intros (pre & post & E). destruct pre as [|x pre]; simpl in E.
      * left. eauto.
      * injection E as -> ->. right. eauto.
Qed.

Lemma stripPrefix_correct prefix : forall s r,
  stripPrefix prefix s = Some r <-> s = prefix ++ r.
Proof.
  induction prefix as [|p prefix IH]; intros s r; simpl.
  - destruct s; split; intros H; congruence.
  - destruct s as [|c s]; [split; discriminate|].
    destruct (Ascii.eqb c p) eqn:E.
    + apply Ascii.eqb_eq in E. subst c. rewrite IH. split; congruence.
    + split; [discriminate|]. intros H. injection H as -> _.
      rewrite Ascii.eqb_refl in E. discriminate.
Qed.

Lemma span_correct p s : forall run rest,
  span p s = (run, rest) <->
  s = run ++ rest /\ forallb p run = true /\
  match rest with [] => True | c :: _ => p c = false end.
Proof.
  induction s as [|c s IH]; intros run rest; simpl.
  - split.
    + intros H. injection H as <- <-. auto.
    + intros (E & _ & _). symmetry in E. apply app_eq_nil in E as [-> ->].
      reflexivity.
  - destruct (p c) eqn:Ep.
    + destruct (span p s) as [run' rest'] eqn:Es.
      specialize (IH run' rest'). destruct IH as [IH _].
      destruct (IH eq_refl) as (-> & Hall & Hrest). split.
      * intros H. injection H as <- <-. simpl. rewrite Ep. auto.
      * intros (E & Hall' & Hrest').
        destruct run as [|x run]; simpl in E.
        { subst rest. congruence. }
        injection E as <- E. simpl in Hall'.
        apply andb_prop in Hall' as [_ Hall'].
        assert (Hs : span p (run' ++ rest') = (run, rest)).
        { rewrite E.
          clear - Hall' Hrest'. induction run as [|y run IHr]; simpl.
          - destruct rest as [|z rest]; simpl; [reflexivity|].
            now rewrite Hrest'.
          - simpl in Hall'. apply andb_prop in Hall' as [Hy Hall'].
            rewrite Hy, IHr by assumption. reflexivity. }
        rewrite Es in Hs. injection Hs as -> ->. reflexivity.
    + split.
      * intros H. injection H as <- <-. simpl. auto.
      * intros (E & Hall & Hrest).
        destruct run as [|x run]; simpl in E.
        { now subst. }
        injection E as <- _. simpl in Hall. rewrite Ep in Hall. discriminate.
Qed.

Lemma leadingRun_span s run :
  leadingRun s run <-> fst (span dotOrDigit s) = run.
Proof.
  unfold leadingRun. split.
  - intros (rest & H). apply span_correct in H. now rewrite H.
  - intros <-. destruct (span dotOrDigit s) as [run rest] eqn:E.
    exists rest. now apply span_correct.
Qed.

(** ** The version resolver *)

(** The submatch function finds nothing exactly when no prefix of the
    text is in the language of the pattern. *)
Lemma versionRe_FindAllStringSubmatch_nil s :
  versionRe_FindAllStringSubmatch s = [] <-> MatchPrefix versionRe s = false.
Proof.
  unfold versionRe_FindAllStringSubmatch.
  destruct (span dotOrDigit s) as [run rest] eqn:E.
  apply span_correct in E as (-> & Hall & Hrest).
  rewrite <- not_true_iff_false, MatchPrefix_correct.
  destruct run as [|c run]; split; intros H; try reflexivity;
    try discriminate.
  - intros (m & post & E & Hm). unfold versionRe in Hm.
    apply matches_Cat_inv in Hm as (s1 & s2 & -> & H1 & _).
    apply matches_Plus_Class in H1 as [Hne H1].
    destruct s1 as [|x s1]; [contradiction|].
    simpl in E, H1. destruct rest as [|y rest]; [discriminate|].
    injection E as <- _. rewrite Hrest in H1. discriminate.
  - exfalso. apply H. exists ((c :: run) ++ []), rest. split.
    + now rewrite app_nil_r.
    + unfold versionRe. constructor.
      * apply matches_Plus_Class. split; [discriminate | assumption].
      * apply MAltR. constructor.
Qed.

(** C5: a version output that holds ["vboxdrv"] anywhere is a setup
    error, whatever else it holds; any other output yields its leading
    run of dots and digits, with what follows (a release tag such as
    [_RC1]) dropped, and when that run is empty a parse error whose
    message ends with the output.  The run of ["4.3.0_RC1"] is
    ["4.3.0"]. *)
Theorem Version_of_output (w : World) (d : VBox42Driver) (h : History) :
  let c := mkCmd (VBoxManagePath d) ["--version" : gostring] in
  let versionOutput := strings_TrimSpace (ran_stdout (w h c)) in
  ran_err (w h c) = None ->
  (hasSubstring versionOutput "vboxdrv" ->
   Version w d h
   = (Returns ([], Some (fmt_Errorf ("VirtualBox is not properly setup: "
                                       ++ versionOutput))),
      h ++ [c]))
  /\
  (~ hasSubstring versionOutput "vboxdrv" ->
   forall run, leadingRun versionOutput run ->
     (run <> [] -> Version w d h = (Returns (run, None), h ++ [c]))
     /\
     (run = [] ->
      Version w d h
      = (Returns ([], Some (fmt_Errorf ("No version found: "
                                          ++ versionOutput))),
         h ++ [c])))
  /\
  (exists run, leadingRun versionOutput run)
  /\
  leadingRun "4.3.0_RC1" "4.3.0".
Proof.
  intros c versionOutput Herr.
  unfold Version, bind, cmd_Run, ret. fold c. rewrite Herr.
  fold versionOutput.
  split; [|split; [|split]].
  - intros Hsub. apply strings_Contains_correct in Hsub. now rewrite Hsub.
  - intros Hsub run Hrun.
    destruct (strings_Contains versionOutput "vboxdrv") eqn:E.
    { apply strings_Contains_correct in E. contradiction. }
    apply leadingRun_span in Hrun.
    unfold versionRe_FindAllStringSubmatch.
    destruct (span dotOrDigit versionOutput) as [run' rest] eqn:Es.
    simpl in Hrun. subst run'.
    split; intros Hr.
    + destruct run as [|x run]; [contradiction|]. reflexivity.
    + subst run. reflexivity.
  - exists (fst (span dotOrDigit versionOutput)). now apply leadingRun_span.
  - apply leadingRun_span. reflexivity.
Qed.

Lemma Version_of_output_witness :
  Version (toolOfVersion ("4.3.0_RC1" ++ [LF])) sampleDriver []
  = (Returns ("4.3.0" : gostring, None),
     [mkCmd "/usr/bin/VBoxManage" ["--version" : gostring]]).
Proof.
  refine (proj1 (proj1 (proj2 (Version_of_output
                                 (toolOfVersion ("4.3.0_RC1" ++ [LF]))
                                 sampleDriver [] eq_refl))
                       _ "4.3.0" _) _).
  - intros Hsub. apply strings_Contains_correct in Hsub.
    vm_compute in Hsub. discriminate.
  - apply leadingRun_span. reflexivity.
  - discriminate.
Defined.

(** ** The version gate of the SATA controller *)

Lemma decimal_nonneg s :
  forallb versionUtil.isDigit s = true -> 0 <= versionUtil.decimal s.
Proof.
  unfold versionUtil.decimal.
  assert (G : forall acc, 0 <= acc ->
            forallb versionUtil.isDigit s = true ->
            0 <= fold_left (fun a c => 10 * a + versionUtil.digitValue c) s acc).
  { induction s as [|c s IH]; intros acc Hacc Hall;
      cbn [fold_left forallb] in *; auto.
    apply andb_prop in Hall as [Hc Hall].
    apply IH; auto.
    unfold versionUtil.isDigit, Range in Hc.
    apply andb_prop in Hc as [Hlo _]. apply N.leb_le in Hlo.
    unfold versionUtil.digitValue.
    change (N_of_ascii "0") with 48%N in Hlo. lia. }
  apply G. lia.
Qed.

Lemma parseSegments_nonneg pieces : forall l,
  versionUtil.parseSegments pieces = versionUtil.Segments l ->
  Forall (fun z => 0 <= z) l.
Proof.
  induction pieces as [|piece pieces IH]; intros l; simpl.
  - intros H. injection H as <-. constructor.
  - destruct (forallb versionUtil.isDigit piece) eqn:Ed; simpl;
      [|discriminate].
    destruct (negb (gostring_eqb piece [])); [|discriminate].
    destruct (versionUtil.parseSegments pieces) as [| |l']; try discriminate.
    destruct (versionUtil.decimal piece <=? versionUtil.maxInt64);
      [|discriminate].
    intros H. injection H as <-. constructor; auto.
    now apply decimal_nonneg.
Qed.

(** A parsed version has three segments at least, none negative. *)
Lemma NewVersion_segments v cv :
  versionUtil.NewVersion v = inl cv ->
  exists major minor patch rest,
    versionUtil.segments cv = major :: minor :: patch :: rest /\
    Forall (fun z => 0 <= z) (versionUtil.segments cv).
Proof.
  unfold versionUtil.NewVersion.
  destruct (versionUtil.parseSegments (strings_Split v ".")) as [| |l] eqn:E;
    try discriminate.
  intros H. injection H as <-. simpl.
  apply parseSegments_nonneg in E.
  assert (Hpad : Forall (fun z => 0 <= z) (versionUtil.pad3 l)).
  { unfold versionUtil.pad3. apply Forall_app. split; auto.
    apply Forall_forall. intros z Hz. apply repeat_spec in Hz. lia. }
  unfold versionUtil.pad3 in *.
  destruct l as [|a [|b [|c l']]]; simpl in *; do 4 eexists;
    (split; [reflexivity | assumption]).
Qed.

Lemma LessThan_4_3 cv major minor rest :
  versionUtil.segments cv = major :: minor :: rest ->
  rest <> [] ->
  Forall (fun z => 0 <= z) (versionUtil.segments cv) ->
  versionUtil.LessThan cv (versionUtil.mkVersion [4; 3; 0]) = true
  <-> below_4_3 major minor.
Proof.
  intros Hseg Hrest Hpos. rewrite Hseg in Hpos.
  unfold versionUtil.LessThan, versionUtil.Compare, below_4_3.
  rewrite Hseg.
  destruct rest as [|patch rest]; [contradiction|].
  inversion Hpos as [|? ? _ Hpos1]; subst.
  inversion Hpos1 as [|? ? _ Hpos2]; subst.
  inversion Hpos2 as [|? ? Hpatch _]; subst.
  cbn [versionUtil.compareSegments versionUtil.segments].
  rewrite Z.ltb_lt.
  destruct (Z.eqb_spec major 4) as [-> | E1].
  - destruct (Z.eqb_spec minor 3) as [-> | E2].
    + destruct (Z.eqb_spec patch 0) as [-> | E3].
      * destruct rest as [|x rest];
          cbn [versionUtil.compareSegments]; [lia|].
        destruct (versionUtil.allZero (x :: rest)); lia.
      * destruct (Z.ltb_spec patch 0); lia.
    + destruct (Z.ltb_spec minor 3); lia.
  - destruct (Z.ltb_spec major 4); lia.
Qed.

Lemma VBoxManage_runs (w : World) (d : VBox42Driver) args h :
  snd (VBoxManage w d args h) = h ++ [mkCmd (VBoxManagePath d) args].
Proof.
  reflexivity.
Qed.

(** C6: once the version of the tool is resolved and read as a dotted
    number, [CreateSATAController] runs [storagectl] with
    [--sataportcount] when the version is below 4.3 and with
    [--portcount] when it is 4.3 or above. *)
Theorem CreateSATAController_port_count_flag (w : World) (d : VBox42Driver)
    (vmName name : gostring) (portcount : Z) (h h' : History)
    (version : gostring) (cv : versionUtil.Version)
    (major minor : Z) (rest : list Z) :
  Version w d h = (Returns (version, None), h') ->
  versionUtil.NewVersion version = inl cv ->
  versionUtil.segments cv = major :: minor :: rest ->
  (below_4_3 major minor ->
   CreateSATAController w d vmName name portcount h
   = VBoxManage w d (sataCommand vmName name "--sataportcount" portcount) h'
   /\
   snd (CreateSATAController w d vmName name portcount h)
   = h' ++ [mkCmd (VBoxManagePath d)
                  (sataCommand vmName name "--sataportcount" portcount)])
  /\
  (~ below_4_3 major minor ->
   CreateSATAController w d vmName name portcount h
   = VBoxManage w d (sataCommand vmName name "--portcount" portcount) h'
   /\
   snd (CreateSATAController w d vmName name portcount h)
   = h' ++ [mkCmd (VBoxManagePath d)
                  (sataCommand vmName name "--portcount" portcount)]).
Proof.
  intros Hver Hnew Hseg.
  destruct (NewVersion_segments _ Hnew) as (a & b & c & l & Hseg' & Hpos).
  assert (Hrest : rest <> []).
  { rewrite Hseg in Hseg'. injection Hseg' as _ _ ->. discriminate. }
  pose proof (LessThan_4_3 cv Hseg Hrest Hpos) as Hlt.
  assert (Hrun : forall flag,
             (if versionUtil.LessThan cv (versionUtil.mkVersion [4; 3; 0])
              then "--sataportcount" : gostring
              else "--portcount" : gostring) = flag ->
             CreateSATAController w d vmName name portcount h
             = VBoxManage w d (sataCommand vmName name flag portcount) h').
  { intros flag Hflag.
    unfold CreateSATAController, bind at 1. rewrite Hver, Hnew.
    change (versionUtil.NewVersion "4.3")
      with (@inl versionUtil.Version error (versionUtil.mkVersion [4; 3; 0])).
    cbv iota beta. rewrite Hflag. reflexivity. }
  split; intros Hb.
  - apply Hlt in Hb.
    rewrite (Hrun "--sataportcount") by now rewrite Hb.
    split; [reflexivity | apply VBoxManage_runs].
  - assert (Hf : versionUtil.LessThan cv (versionUtil.mkVersion [4; 3; 0])
                 = false).
    { destruct (versionUtil.LessThan cv (versionUtil.mkVersion [4; 3; 0]));
        [exfalso; apply Hb; now apply Hlt | reflexivity]. }
    rewrite (Hrun "--portcount") by now rewrite Hf.
    split; [reflexivity | apply VBoxManage_runs].
Qed.

Lemma CreateSATAController_port_count_flag_witness :
  let versionCmd := mkCmd "/usr/bin/VBoxManage" ["--version" : gostring] in
  let run flag :=
    [ versionCmd;
      mkCmd "/usr/bin/VBoxManage" (sataCommand "vm" "SATA" flag 30) ] in
  snd (CreateSATAController (toolOfVersion ("4.2.99" ++ [LF])) sampleDriver
                            "vm" "SATA" 30 [])
  = run ("--sataportcount" : gostring)
  /\
  snd (CreateSATAController (toolOfVersion ("4.3.0" ++ [LF])) sampleDriver
                            "vm" "SATA" 30 [])
  = run ("--portcount" : gostring)
  /\
  snd (CreateSATAController (toolOfVersion ("5.1.2r1" ++ [LF])) sampleDriver
                            "vm" "SATA" 30 [])
  = run ("--portcount" : gostring).
Proof.
  intros versionCmd run. split; [|split].
  - refine (proj2 (proj1 (CreateSATAController_port_count_flag
                            (toolOfVersion ("4.2.99" ++ [LF])) sampleDriver
                            "vm" "SATA" 30 [] (h' := [versionCmd])
                            (version := "4.2.99")
                            (cv := versionUtil.mkVersion [4; 2; 99])
                            (major := 4) (minor := 2) (rest := [99])
                            eq_refl eq_refl eq_refl) _)).
    right. split; reflexivity.
  - refine (proj2 (proj2 (CreateSATAController_port_count_flag
                            (toolOfVersion ("4.3.0" ++ [LF])) sampleDriver
                            "vm" "SATA" 30 [] (h' := [versionCmd])
                            (version := "4.3.0")
                            (cv := versionUtil.mkVersion [4; 3; 0])
                            (major := 4) (minor := 3) (rest := [0])
                            eq_refl eq_refl eq_refl) _)).
    intros [H | [_ H]]; discriminate H.
  - refine (proj2 (proj2 (CreateSATAController_port_count_flag
                            (toolOfVersion ("5.1.2r1" ++ [LF])) sampleDriver
                            "vm" "SATA" 30 [] (h' := [versionCmd])
                            (version := "5.1.2")
                            (cv := versionUtil.mkVersion [5; 1; 2])
                            (major := 5) (minor := 1) (rest := [2])
                            eq_refl eq_refl eq_refl) _)).
    intros [H | [H _]]; discriminate H.
Defined.

(** ** The running-state query *)

Lemma anyRunning_correct lines :
  anyRunning lines = true <->
  exists line,
    In line lines /\ reportsRunning (strings_TrimRight line [CR]).
Proof.
  unfold reportsRunning, vmState.
  induction lines as [|line lines IH]; cbn [anyRunning].
  - split; [discriminate | intros (line & [] & _)].
  - fold CR.
    destruct (gostring_eqb (strings_TrimRight line [CR])
                ("VMState=" ++ [dquote] ++ "running" ++ [dquote])) eqn:E1.
    { apply gostring_eqb_eq in E1. split; auto.
      intros _. exists line. split; [now left | auto]. }
    destruct (gostring_eqb (strings_TrimRight line [CR])
                ("VMState=" ++ [dquote] ++ "stopping" ++ [dquote])) eqn:E2.
    { apply gostring_eqb_eq in E2. split; auto.
      intros _. exists line. split; [now left | auto]. }
    destruct (gostring_eqb (strings_TrimRight line [CR])
                ("VMState=" ++ [dquote] ++ "paused" ++ [dquote])) eqn:E3.
    { apply gostring_eqb_eq in E3. split; auto.
      intros _. exists line. split; [now left | auto]. }
    apply gostring_eqb_neq in E1, E2, E3.
    rewrite IH. split.
    + intros (l & Hin & Hl). exists l. split; [now right | assumption].
    + intros (l & [<- | Hin] & Hl).
      * destruct Hl as [Hl | [Hl | Hl]]; contradiction.
      * eauto.
Qed.

(** C8: when the query ran, [IsRunning] is true exactly when some line
    of the output, its trailing carriage returns removed, is
    [VMState="running"], [VMState="stopping"] or [VMState="paused"]; an
    output whose [VMState] lines all report another state gives false. *)
Theorem IsRunning_states (w : World) (d : VBox42Driver) (name : gostring)
    (h : History) :
  let c := mkCmd (VBoxManagePath d)
                 [ "showvminfo" : gostring; name;
                   "--machinereadable" : gostring ] in
  let lines := strings_Split (ran_stdout (w h c)) LF in
  ran_err (w h c) = None ->
  exists running,
    IsRunning w d name h = (Returns (running, None), h ++ [c]) /\
    (running = true <->
     exists line,
       In line lines /\ reportsRunning (strings_TrimRight line [CR])) /\
    ((forall line state,
        In line lines ->
        strings_TrimRight line [CR] = vmState state ->
        state <> "running" /\ state <> "stopping" /\ state <> "paused") ->
     running = false).
Proof.
  intros c lines Herr.
  exists (anyRunning lines).
  unfold IsRunning, bind, cmd_Run, ret. fold c. rewrite Herr.
  split; [reflexivity|]. split; [apply anyRunning_correct|].
  intros Hother. apply not_true_is_false. intros Hrun.
  apply anyRunning_correct in Hrun as (line & Hin & Hl).
  destruct Hl as [Hl | [Hl | Hl]];
    destruct (Hother line _ Hin Hl) as (H1 & H2 & H3); congruence.
Qed.

Lemma IsRunning_states_witness :
  exists running,
    IsRunning (always (mkRan None
                         ("name=" ++ [dquote] ++ "vm" ++ [dquote; CR; LF]
                          ++ vmState "paused" ++ [CR; LF])
                         []))
              sampleDriver "vm" []
    = (Returns (running, None),
       [mkCmd "/usr/bin/VBoxManage"
              [ "showvminfo" : gostring; "vm" : gostring;
                "--machinereadable" : gostring ]]) /\
    running = true.
Proof.
  destruct (IsRunning_states
              (always (mkRan None
                         ("name=" ++ [dquote] ++ "vm" ++ [dquote; CR; LF]
                          ++ vmState "paused" ++ [CR; LF])
                         []))
              sampleDriver "vm" [] eq_refl) as (running & Hret & Hiff & _).
  exists running. split; [exact Hret|].
  apply Hiff. exists (vmState "paused" ++ [CR]).
  split; [right; left; reflexivity | right; right; reflexivity].
Defined.

(** ** The pattern of a snapshot record *)

Lemma matches_Star_forallb (p : ascii -> bool) r s :
  (forall s', matches r s' -> forallb p s' = true) ->
  matches (Star r) s -> forallb p s = true.
Proof.
  intros Hr H. remember (Star r) as sr eqn:E.
  induction H; try discriminate; auto.
  injection E as ->. rewrite forallb_app.
  rewrite (Hr _ H), IHmatches2; auto.
Qed.

Lemma pathGroupRe_bytes s :
  matches pathGroupRe s -> forallb pathByte s = true.
Proof.
  unfold pathGroupRe. intros H.
  apply matches_Cat_inv in H as (s1 & s2 & -> & H1 & H2).
  apply matches_Lit in H1. subst s1.
  apply matches_Plus_Class in H2 as [_ H2].
  simpl. rewrite forallb_forall in *. intros c Hc.
  unfold pathByte, Or. rewrite (H2 c Hc). apply orb_true_r.
Qed.

(** The words of the pattern, spelled out. *)
Lemma SnapshotNamePartsRe_words m :
  matches SnapshotNamePartsRe m <->
  exists type path value,
    m = "Snapshot" ++ type ++ path ++ ("=" ++ [dquote]) ++ value ++ [dquote]
    /\ (type = "Name" \/ type = "UUID")
    /\ matches (Star pathGroupRe) path
    /\ forallb (Not (Chr dquote)) value = true.
Proof.
  unfold SnapshotNamePartsRe. split.
  - intros H.
    apply matches_Cat_inv in H as (s1 & ? & -> & H1 & H).
    apply matches_Cat_inv in H as (type & ? & -> & H2 & H).
    apply matches_Cat_inv in H as (path & ? & -> & H3 & H).
    apply matches_Cat_inv in H as (s4 & ? & -> & H4 & H).
    apply matches_Cat_inv in H as (value & s6 & -> & H5 & H6).
    apply matches_Lit in H1, H4, H6. subst s1 s4 s6.
    apply matches_Star_Class in H5.
    exists type, path, value. repeat split; auto.
    apply matches_Alt_inv in H2 as [H2 | H2]; apply matches_Lit in H2; auto.
  - intros (type & path & value & -> & Htype & Hpath & Hvalue).
    constructor; [now apply matches_Lit|].
    constructor.
    { destruct Htype as [-> | ->];
        [apply MAltL | apply MAltR]; now apply matches_Lit. }
    constructor; [assumption|].
    constructor; [now apply matches_Lit|].
    constructor; [now apply matches_Star_Class | now apply matches_Lit].
Qed.

Lemma snapshotPartsAt_complete m post :
  matches SnapshotNamePartsRe m ->
  exists type path value,
    snapshotPartsAt (m ++ post)
    = Some [m; type; path; lastGroup path; value].
Proof.
  intros H. apply SnapshotNamePartsRe_words in H
    as (type & path & value & -> & Htype & Hpath & Hvalue).
  exists type, path, value.
  unfold snapshotPartsAt.
  repeat rewrite <- app_assoc.
  rewrite (proj2 (stripPrefix_correct "Snapshot" _ _) eq_refl).
  assert (Hty :
    match stripPrefix "Name" (type ++ path ++ "=" ++ [dquote] ++ value
                                ++ [dquote] ++ post),
          stripPrefix "UUID" (type ++ path ++ "=" ++ [dquote] ++ value
                                ++ [dquote] ++ post) with
    | Some r2, _ => Some ("Name" : gostring, r2)
    | None, Some r2 => Some ("UUID" : gostring, r2)
    | None, None => None
    end
    = Some (type, path ++ "=" ++ [dquote] ++ value ++ [dquote] ++ post)).
  { destruct Htype as [-> | ->].
    - now rewrite (proj2 (stripPrefix_correct "Name" _ _) eq_refl).
    - now rewrite (proj2 (stripPrefix_correct "UUID" _ _) eq_refl). }
  rewrite Hty.
  assert (Hspan : span pathByte (path ++ "=" ++ [dquote] ++ value
                                   ++ [dquote] ++ post)
                  = (path, "=" ++ [dquote] ++ value ++ [dquote] ++ post)).
  { apply span_correct. split; [reflexivity|]. split; [|reflexivity].
    eapply matches_Star_forallb; [apply pathGroupRe_bytes | exact Hpath]. }
  rewrite Hspan.
  rewrite (proj2 (fullMatch_correct _ _) Hpath).
  change ("=" ++ [dquote] ++ value ++ [dquote] ++ post)
    with (("=" ++ [dquote]) ++ value ++ [dquote] ++ post).
  rewrite (proj2 (stripPrefix_correct ("=" ++ [dquote]) _ _) eq_refl).
  assert (Hval : span (Not (Chr dquote)) (value ++ [dquote] ++ post)
                 = (value, [dquote] ++ post)).
  { apply span_correct. split; [reflexivity|]. split; [assumption|].
    reflexivity. }
  rewrite Hval.
  rewrite (proj2 (stripPrefix_correct [dquote] _ _) eq_refl).
  reflexivity.
Qed.

Lemma snapshotPartsAt_sound s r :
  snapshotPartsAt s = Some r ->
  r <> [] /\
  exists m post, s = m ++ post /\ matches SnapshotNamePartsRe m.
Proof.
  unfold snapshotPartsAt.
  destruct (stripPrefix "Snapshot" s) as [r1|] eqn:E1; [|discriminate].
  apply stripPrefix_correct in E1. subst s.
  assert (Hty : forall o,
    match stripPrefix "Name" r1, stripPrefix "UUID" r1 with
    | Some r2, _ => Some ("Name" : gostring, r2)
    | None, Some r2 => Some ("UUID" : gostring, r2)
    | None, None => None
    end = o ->
    match o with
    | Some (type, r2) =>
        r1 = type ++ r2 /\ (type = "Name" \/ type = "UUID")
    | None => True
    end).
  { intros o <-.
    destruct (stripPrefix "Name" r1) as [r2|] eqn:EN.
    - apply stripPrefix_correct in EN. auto.
    - destruct (stripPrefix "UUID" r1) as [r2|] eqn:EU; auto.
      apply stripPrefix_correct in EU. auto. }
  specialize (Hty _ eq_refl).
  destruct (match stripPrefix "Name" r1, stripPrefix "UUID" r1 with
            | Some r2, _ => Some ("Name" : gostring, r2)
            | None, Some r2 => Some ("UUID" : gostring, r2)
            | None, None => None
            end) as [[type r2]|]; [|discriminate].
  destruct Hty as [-> Htype].
  destruct (span pathByte r2) as [path r3] eqn:Es.
  apply span_correct in Es as (-> & _ & _).
  destruct (fullMatch (Star pathGroupRe) path) eqn:Ef; [|discriminate].
  apply fullMatch_correct in Ef.
  destruct (stripPrefix ("=" ++ [dquote]) r3) as [r4|] eqn:E4;
    [|discriminate].
  apply stripPrefix_correct in E4. subst r3.
  destruct (span (Not (Chr dquote)) r4) as [value r5] eqn:Ev.
  apply span_correct in Ev as (-> & Hvalue & _).
  destruct (stripPrefix [dquote] r5) as [r6|] eqn:E6; [|discriminate].
  apply stripPrefix_correct in E6. subst r5.
  intros H. injection H as <-. split; [discriminate|].
  exists ("Snapshot" ++ type ++ path ++ ("=" ++ [dquote]) ++ value
            ++ [dquote]), r6.
  split.
  - repeat rewrite <- app_assoc. reflexivity.
  - apply SnapshotNamePartsRe_words. exists type, path, value. auto.
Qed.

Lemma SnapshotNamePartsRe_FindStringSubmatch_unfold txt :
  SnapshotNamePartsRe_FindStringSubmatch txt
  = match snapshotPartsAt txt with
    | Some m => m
    | None =>
        match txt with
        | [] => []
        | _ :: txt' => SnapshotNamePartsRe_FindStringSubmatch txt'
        end
    end.
Proof.
  destruct txt; reflexivity.
Qed.

(** The submatch function returns nil exactly when no substring of the
    line is in the language of the pattern. *)
Lemma SnapshotNamePartsRe_FindStringSubmatch_nil txt :
  SnapshotNamePartsRe_FindStringSubmatch txt = [] <->
  MatchString SnapshotNamePartsRe txt = false.
Proof.
  rewrite <- not_true_iff_false, MatchString_correct. split.
  - intros Hnil (pre & m & post & -> & Hm).
    induction pre as [|c pre IH];
      rewrite SnapshotNamePartsRe_FindStringSubmatch_unfold in Hnil.
    + destruct (snapshotPartsAt_complete post Hm) as (t & p & v & E).
      simpl app in Hnil. rewrite E in Hnil. discriminate.
    + apply IH.
      destruct (snapshotPartsAt ((c :: pre) ++ m ++ post)) as [r|] eqn:E;
        [|assumption].
      apply snapshotPartsAt_sound in E as [Hr _]. contradiction.
  - intros Hno. induction txt as [|c txt IH];
      rewrite SnapshotNamePartsRe_FindStringSubmatch_unfold.
    + destruct (snapshotPartsAt []) as [r|] eqn:E; [|reflexivity].
      apply snapshotPartsAt_sound in E as (_ & m & post & E & Hm).
      exfalso. apply Hno. exists [], m, post. auto.
    + destruct (snapshotPartsAt (c :: txt)) as [r|] eqn:E.
      * apply snapshotPartsAt_sound in E as (_ & m & post & E & Hm).
        exfalso. apply Hno. exists [], m, post. auto.
      * apply IH. intros (pre & m & post & E' & Hm).
        apply Hno. exists (c :: pre), m, post. simpl. rewrite E'. auto.
Qed.

(** ** The snapshot tree builder *)

Lemma scanLines_panics txt lines :
  In txt lines ->
  (forall l, exists p, scanLine l txt = Panics p) ->
  forall l, exists p, scanLines l lines = Panics p.
Proof.
  intros Hin Htxt. induction lines as [|line lines IH]; intros l.
  - destruct Hin.
  - cbn [scanLines]. destruct Hin as [-> | Hin].
    + destruct (Htxt l) as (p & ->). simpl. eauto.
    + destruct (scanLine l line) as [l'|p]; simpl; eauto.
Qed.

Lemma LoadSnapshots_parses (w : World) (d : VBox42Driver)
    (vmName stdoutString : gostring) (h h' : History) :
  vmName <> [] ->
  VBoxManageWithOutput w d
    [ "snapshot" : gostring; vmName; "list" : gostring;
      "--machinereadable" : gostring ] h
  = (Returns (stdoutString, None), h') ->
  LoadSnapshots w d vmName h
  = match parseSnapshots stdoutString with
    | Returns rootNode => (Returns (rootNode, None), h')
    | Panics p => (Panics p, h')
    end.
Proof.
  intros Hname Hrun. unfold LoadSnapshots.
  apply gostring_eqb_neq in Hname. rewrite Hname.
  unfold bind. rewrite Hrun. unfold lift.
  destruct (parseSnapshots stdoutString); reflexivity.
Qed.

(** C10: a line of the listing with ["="] at index 1 or later that does
    not start with ["Current"] and in which the pattern of a snapshot
    record matches nowhere makes the parser index the nil match at 0 and
    panic, and with it [LoadSnapshots]; a line with no ["="] at index 1
    or later is skipped. *)
Theorem scanLine_unmatched_record_panics (l : Locals) (txt : gostring) :
  strings_Index txt "=" > 0 ->
  strings_HasPrefix txt "Current" = false ->
  MatchString SnapshotNamePartsRe txt = false ->
  scanLine l txt = Panics (IndexOutOfRange 0 0)
  /\
  (forall (w : World) (d : VBox42Driver) (vmName stdoutString : gostring)
          (h h' : History),
     vmName <> [] ->
     VBoxManageWithOutput w d
       [ "snapshot" : gostring; vmName; "list" : gostring;
         "--machinereadable" : gostring ] h
     = (Returns (stdoutString, None), h') ->
     stdoutString <> noSnapshots ->
     In txt (scanner_Lines stdoutString) ->
     exists p, LoadSnapshots w d vmName h = (Panics p, h'))
  /\
  (forall (l' : Locals) (txt' : gostring),
     strings_Index txt' "=" <= 0 -> scanLine l' txt' = Returns l').
Proof.
  intros Hidx Hcur Hno.
  assert (Hpanic : forall l0, scanLine l0 txt = Panics (IndexOutOfRange 0 0)).
  { intros l0. unfold scanLine.
    destruct (Z.gtb_spec (strings_Index txt "=") 0) as [_ | Hle]; [|lia].
    rewrite Hcur.
    apply SnapshotNamePartsRe_FindStringSubmatch_nil in Hno. rewrite Hno.
    reflexivity. }
  split; [apply Hpanic|]. split.
  - intros w d vmName stdoutString h h' Hname Hrun Hsome Hin.
    rewrite (LoadSnapshots_parses Hname Hrun).
    unfold parseSnapshots. apply gostring_eqb_neq in Hsome. rewrite Hsome.
    cbn [negb].
    destruct (scanLines_panics txt (scanner_Lines stdoutString) Hin)
      with (l := initialLocals) as (p & ->).
    { intros l0. rewrite Hpanic. eauto. }
    simpl. eauto.
  - intros l' txt' Hle. unfold scanLine.
    destruct (Z.gtb_spec (strings_Index txt' "=") 0) as [Hgt | _];
      [lia | reflexivity].
Qed.

Lemma scanLine_unmatched_record_panics_witness :
  scanLine afterThree (record "Name" "-10" "x")
  = Panics (IndexOutOfRange 0 0)
  /\
  scanLine afterThree (record "Description" "-1" "x")
  = Panics (IndexOutOfRange 0 0).
Proof.
  split.
  - exact (proj1 (scanLine_unmatched_record_panics afterThree
                    (record "Name" "-10" "x") eq_refl eq_refl eq_refl)).
  - exact (proj1 (scanLine_unmatched_record_panics afterThree
                    (record "Description" "-1" "x") eq_refl eq_refl eq_refl)).
Defined.



(** C9, as the specification has it, fails: with an empty name of the
    machine [LoadSnapshots] returns nothing, it panics, and so does
    [SetSnapshot] with a nil snapshot. *)
Lemma empty_argument_counterexample :
  (~ exists sn err,
       fst (LoadSnapshots (always plainWarning) sampleDriver [] [])
       = Returns (sn, Some err))
  /\
  (~ exists err,
       fst (SetSnapshot (always plainWarning) sampleDriver "vm" None [])
       = Returns (Some err)).
Proof.
  split.
  - intros (sn & err & H). discriminate H.
  - intros (err & H). discriminate H.
Qed.

(** C9, amended: each of the six snapshot operations, called with an
    empty name of the machine, panics with an "Argument empty exception"
    before it runs any command, and [SetSnapshot] and [DeleteSnapshot],
    called with a name and a nil snapshot, panic with "Argument null
    exception: sn" before they run any command; no error is returned. *)
Theorem empty_argument_panics (w : World) (d : VBox42Driver)
    (getCurrent : option Snapshot -> Outcome (option Snapshot))
    (snapshotName : gostring) (sn : option Snapshot)
    (c : ascii) (vmname : gostring) (h : History) :
  LoadSnapshots w d [] h
  = (Panics (PanicString "Argument empty exception: vmName"), h)
  /\ CreateSnapshot w d [] snapshotName h
     = (Panics (PanicString "Argument empty exception: vmname"), h)
  /\ HasSnapshots w d [] h
     = (Panics (PanicString "Argument empty exception: vmname"), h)
  /\ GetCurrentSnapshot w d getCurrent [] h
     = (Panics (PanicString "Argument empty exception: vmname"), h)
  /\ SetSnapshot w d [] sn h
     = (Panics (PanicString "Argument empty exception: vmname"), h)
  /\ DeleteSnapshot w d [] sn h
     = (Panics (PanicString "Argument empty exception: vmname"), h)
  /\ SetSnapshot w d (c :: vmname) None h
     = (Panics (PanicString "Argument null exception: sn"), h)
  /\ DeleteSnapshot w d (c :: vmname) None h
     = (Panics (PanicString "Argument null exception: sn"), h).
Proof.
  repeat split.
Qed.

Lemma strings_Count_nonneg s sep : 0 <= strings_Count s sep.
Proof.
  induction s as [|c s IH]; cbn [strings_Count]; [lia|].
  destruct (Ascii.eqb c sep); lia.
Qed.

Lemma popTimes_skipn n : forall s, popTimes n s = skipn n s.
Proof.
  induction n as [|n IH]; intros s; [reflexivity|].
  destruct s as [|top prev]; cbn [popTimes stack.Pop snd skipn].
  - rewrite IH. now destruct n.
  - apply IH.
Qed.




(** *** The heap of the parser is a forest *)

Lemma update_length f : forall h a, length (update h a f) = length h.
Proof.
  induction h as [|c h IH]; intros [|a]; simpl; auto.
Qed.

Lemma nth_error_update f : forall h a b,
  nth_error (update h a f) b
  = if Nat.eqb a b then option_map f (nth_error h b) else nth_error h b.
Proof.
  induction h as [|c h IH]; intros [|a] [|b]; simpl; auto.
  - now destruct (Nat.eqb a b).
Qed.

Lemma ptrOK_grow h h' p :
  (length h <= length h')%nat -> ptrOK h p -> ptrOK h' p.
Proof.
  destruct p; simpl; lia.
Qed.

Lemma childrenOK_update h a f :
  (forall c, Children (f c) = Children c) ->
  childrenOK h -> childrenOK (update h a f).
Proof.
  intros Hf Hh b c child Hnth Hin.
  rewrite update_length. rewrite nth_error_update in Hnth.
  destruct (Nat.eqb a b).
  - destruct (nth_error h b) as [c0|] eqn:E; [|discriminate].
    injection Hnth as <-. rewrite Hf in Hin. eauto.
  - eauto.
Qed.

Lemma childrenOK_new h :
  childrenOK h -> childrenOK (fst (new h)).
Proof.
  intros Hh a c child Hnth Hin. simpl in *.
  rewrite length_app. simpl.
  destruct (Nat.lt_ge_cases a (length h)) as [Hlt | Hge].
  - rewrite nth_error_app1 in Hnth by assumption.
    specialize (Hh _ _ _ Hnth Hin). lia.
  - rewrite nth_error_app2 in Hnth by assumption.
    destruct (a - length h)%nat as [|n]; simpl in Hnth.
    + injection Hnth as <-. destruct Hin.
    + destruct n; discriminate.
Qed.

Lemma childrenOK_appendChild h pa a :
  childrenOK h -> (pa < a < length h)%nat ->
  childrenOK (update h pa (appendChild a)).
Proof.
  intros Hh Hlt b c child Hnth Hin.
  rewrite update_length. rewrite nth_error_update in Hnth.
  destruct (Nat.eqb_spec pa b) as [-> | Hne].
  - destruct (nth_error h b) as [c0|] eqn:E; [|discriminate].
    injection Hnth as <-. simpl in Hin. apply in_app_or in Hin as [Hin | Hin].
    + eauto.
    + destruct Hin as [<- | []]. assumption.
  - eauto.
Qed.

Lemma Inv_store l p f h :
  (forall c, Children (f c) = Children c) ->
  Inv l -> store (heap l) p f = Returns h ->
  Inv (mkLocals h (rootNode l) (currentIndicator l) (parentStack l) (node l)).
Proof.
  intros Hf [Hc Hn Hr Hs] Hstore. destruct p as [a|]; [|discriminate].
  injection Hstore as <-.
  constructor; cbn [heap node rootNode parentStack].
  - now apply childrenOK_update.
  - eapply ptrOK_grow; [|exact Hn]. rewrite update_length. lia.
  - eapply ptrOK_grow; [|exact Hr]. rewrite update_length. lia.
  - eapply Forall_impl; [|eassumption]. intros q.
    apply ptrOK_grow. rewrite update_length. lia.
Qed.

Lemma Inv_nameRecord l path value l' :
  Inv l -> nameRecord l path value = Returns l' -> Inv l'.
Proof.
  intros HI. unfold nameRecord.
  match goal with
  | |- obind ?m _ = _ -> _ => destruct m as [l1|] eqn:E1; [|discriminate]
  end.
  cbn [obind].
  assert (HI1 : Inv l1).
  { destruct HI as [Hc Hn Hr Hs].
    destruct (rootNode l) as [root|] eqn:Eroot.
    - destruct (adjust l path) as [indicator stk] eqn:Ea.
      assert (Hstk : Forall (ptrOK (heap l)) stk).
      { unfold adjust in Ea.
        destruct (strings_Count path "-" >? strings_Count (currentIndicator l) "-").
        - injection Ea as _ <-. constructor; assumption.
        - destruct (strings_Count path "-" <? strings_Count (currentIndicator l) "-");
            injection Ea as _ <-; [|assumption].
          rewrite popTimes_skipn.
          rewrite <- (firstn_skipn
                        (Z.to_nat (strings_Count (currentIndicator l) "-" - 1))
                        (parentStack l)) in Hs.
          apply Forall_app in Hs. tauto. }
      cbn [new] in E1.
      destruct (stack.Peek stk) as [parent|] eqn:Ep; [|discriminate].
      injection E1 as <-.
      destruct stk as [|top stk']; [discriminate|].
      injection Ep as ->.
      assert (Hlen : length (heap l ++ [mkVBoxSnapshot [] [] false []])
                     = S (length (heap l))).
      { rewrite length_app. simpl. lia. }
      constructor; cbn [heap node rootNode parentStack].
      + destruct parent as [pa|].
        * apply childrenOK_appendChild.
          { apply (childrenOK_new Hc). }
          inversion Hstk as [|? ? Hpa _]; subst. simpl in Hpa. lia.
        * apply (childrenOK_new Hc).
      + destruct parent as [pa|]; simpl; rewrite ?update_length; lia.
      + simpl in Hr.
        destruct parent as [pa|]; simpl; rewrite ?update_length; lia.
      + eapply Forall_impl; [|exact Hstk]. intros q. apply ptrOK_grow.
        destruct parent as [pa|]; rewrite ?update_length; lia.
    - cbn [new] in E1. injection E1 as <-.
      assert (Hlen : length (heap l ++ [mkVBoxSnapshot [] [] false []])
                     = S (length (heap l))).
      { rewrite length_app. simpl. lia. }
      constructor; cbn [heap node rootNode parentStack].
      + apply (childrenOK_new Hc).
      + simpl. lia.
      + simpl. lia.
      + eapply Forall_impl; [|exact Hs]. intros q. apply ptrOK_grow. lia. }
  destruct (store (heap l1) (node l1) (setName value)) as [h|] eqn:Es;
    [|discriminate].
  cbn [obind]. intros H. injection H as <-.
  eapply Inv_store; [|exact HI1 | exact Es]. reflexivity.
Qed.

Lemma Inv_scanLine l txt l' :
  Inv l -> scanLine l txt = Returns l' -> Inv l'.
Proof.
  intros HI. unfold scanLine.
  destruct (strings_Index txt "=" >? 0); [|intros H; now injection H as <-].
  destruct (strings_HasPrefix txt "Current").
  - destruct (store (heap l) (node l) (setIsCurrent true)) as [h|] eqn:Es;
      [|discriminate].
    cbn [obind]. intros H. injection H as <-.
    eapply Inv_store; [|exact HI | exact Es]. reflexivity.
  - destruct (index _ 0) as [m0|]; [|discriminate]. cbn [obind].
    destruct (index _ 1) as [type|]; [|discriminate]. cbn [obind].
    destruct (index _ 2) as [path|]; [|discriminate]. cbn [obind].
    destruct (index _ 3) as [leaf|]; [|discriminate]. cbn [obind].
    destruct (index _ 4) as [value|]; [|discriminate]. cbn [obind].
    destruct (gostring_eqb type "Name").
    + apply Inv_nameRecord. assumption.
    + destruct (gostring_eqb type "UUID"); [|intros H; now injection H as <-].
      destruct (store (heap l) (node l) (setUUID value)) as [h|] eqn:Es;
        [|discriminate].
      cbn [obind]. intros H. injection H as <-.
      eapply Inv_store; [|exact HI | exact Es]. reflexivity.
Qed.

Lemma Inv_scanLines lines : forall l l',
  Inv l -> scanLines l lines = Returns l' -> Inv l'.
Proof.
  induction lines as [|txt lines IH]; intros l l' HI; cbn [scanLines].
  - intros H. now injection H as <-.
  - destruct (scanLine l txt) as [l1|] eqn:E; [|discriminate].
    cbn [obind]. apply IH. eapply Inv_scanLine; eassumption.
Qed.

Lemma Inv_initialLocals : Inv initialLocals.
Proof.
  constructor; simpl; auto.
  intros a c child H. destruct a; discriminate.
Qed.

(** In a forest no more fuel is needed than there are cells after the
    address. *)
Lemma snapshotAt_fuel h :
  childrenOK h ->
  forall fuel a k,
    (length h - a <= fuel)%nat -> (a < length h)%nat ->
    snapshotAt (fuel + k) h a = snapshotAt fuel h a.
Proof.
  intros Hh. induction fuel as [|fuel IH]; intros a k Hfuel Ha; [lia|].
  cbn [Nat.add snapshotAt].
  destruct (nth_error h a) as [c|] eqn:E; [|reflexivity].
  f_equal. apply map_ext_in. intros child Hin.
  specialize (Hh _ _ _ E Hin). apply IH; lia.
Qed.

(** The tree [parseSnapshots] returns is whole: it does not depend on the
    bound of [snapshotOf]. *)
Lemma parseSnapshots_whole stdoutString l root k :
  scanLines initialLocals (scanner_Lines stdoutString) = Returns l ->
  rootNode l = Some root ->
  (root < length (heap l))%nat /\
  snapshotAt (length (heap l) + k) (heap l) root
  = snapshotAt (length (heap l)) (heap l) root.
Proof.
  intros Hscan Hroot.
  pose proof (Inv_scanLines _ Inv_initialLocals Hscan) as [Hc _ Hr _].
  rewrite Hroot in Hr. simpl in Hr. split; [assumption|].
  apply snapshotAt_fuel; [assumption | lia | assumption].
Qed.

(** C2 does not hold of the code: the indicator the parser holds is only
    replaced when a record is deeper than it.  After the four records of
    [twoBranches], the last of depth 1, the parser still holds the
    indicator [-1-1] of depth 2; a fifth record [-2-1], a child of the
    fourth node, is then taken for a sibling of it and hung under the
    root. *)
Theorem scanLines_stale_indicator :
  scanner_Lines (joinLines twoBranches) = twoBranches
  /\ (exists l,
        scanLines initialLocals twoBranches = Returns l
        /\ node l = Some 3%nat
        /\ nth_error (heap l) 3 = Some (mkVBoxSnapshot "d" [] false [])
        /\ currentIndicator l = "-1-1"
        /\ strings_Count (currentIndicator l) "-" = 2
        /\ strings_Count "-2" "-" = 1)
  /\ parseSnapshots (joinLines twoBranchesDeep)
     = Returns
         (Some (SnapshotNode "a" [] false
                  [ SnapshotNode "b" [] false [SnapshotNode "c" [] false []];
                    SnapshotNode "d" [] false [];
                    SnapshotNode "e" [] false [] ])).
Proof.
  split; [reflexivity|]. split.
  - eexists. split; [reflexivity|]. repeat split.
  - reflexivity.
Qed.

(** * More of the driver *)

(** ** The executor and the operations built on it *)

Lemma VBoxManageWithOutput_returns (w : World) (d : VBox42Driver)
    (args : list gostring) (h : History) :
  let c := mkCmd (VBoxManagePath d) args in
  exists err,
    VBoxManageWithOutput w d args h
    = (Returns (strings_TrimSpace (ran_stdout (w h c)), err), h ++ [c])
    /\ VBoxManage w d args h = (Returns err, h ++ [c])
    /\ (err = None <->
        ran_err (w h c) = None
        /\ MatchString errorBannerRe
             (strings_TrimSpace (ran_stderr (w h c))) = false).
Proof.
  intros c.
  unfold VBoxManage, VBoxManageWithOutput, bind, cmd_Run, ret. fold c.
  destruct (ran_err (w h c)) as [e|] eqn:Herr.
  - eexists. split; [reflexivity|]. split; [reflexivity|].
    destruct e; (split; [discriminate | intros [H _]; discriminate H]).
  - destruct (MatchString errorBannerRe
                (strings_TrimSpace (ran_stderr (w h c)))) eqn:E.
    + eexists. split; [reflexivity|]. split; [reflexivity|].
      split; [discriminate | intros [_ H]; discriminate H].
    + eexists. split; [reflexivity|]. split; [reflexivity|].
      split; auto.
Qed.

Lemma no_banner_iff s :
  MatchString errorBannerRe s = false <-> ~ hasErrorBanner s.
Proof.
  rewrite <- errorBannerRe_correct. symmetry. apply not_true_iff_false.
Qed.

(** X1: the executor never panics, runs exactly the one command it was
    given, always returns the trimmed standard output, and its error is
    nil exactly when the command exited with status zero and the trimmed
    standard error holds no error banner. *)
Theorem VBoxManageWithOutput_success_criterion (w : World)
    (d : VBox42Driver) (args : list gostring) (h : History) :
  let c := mkCmd (VBoxManagePath d) args in
  exists err,
    VBoxManageWithOutput w d args h
    = (Returns (strings_TrimSpace (ran_stdout (w h c)), err), h ++ [c])
    /\ VBoxManage w d args h = (Returns err, h ++ [c])
    /\ (err = None <->
        ran_err (w h c) = None
        /\ ~ hasErrorBanner (strings_TrimSpace (ran_stderr (w h c)))).
Proof.
  intros c.
  destruct (VBoxManageWithOutput_returns w d args h)
    as (err & Hout & Hrun & Hiff).
  exists err. split; [exact Hout|]. split; [exact Hrun|].
  rewrite <- no_banner_iff. exact Hiff.
Qed.

(** X2: a version that [Version] returns with a nil error is never
    empty, holds nothing but dots and digits and opens the trimmed
    output of the query, which then ran without error and without
    ["vboxdrv"] in its output. *)
Theorem Version_result_shape (w : World) (d : VBox42Driver)
    (h h' : History) (version : gostring) :
  let c := mkCmd (VBoxManagePath d) ["--version" : gostring] in
  let versionOutput := strings_TrimSpace (ran_stdout (w h c)) in
  Version w d h = (Returns (version, None), h') ->
  version <> []
  /\ forallb dotOrDigit version = true
  /\ (exists rest, versionOutput = version ++ rest)
  /\ ran_err (w h c) = None
  /\ ~ hasSubstring versionOutput "vboxdrv"
  /\ h' = h ++ [c].
Proof.
  intros c versionOutput.
  unfold Version, bind, cmd_Run, ret. fold c.
  destruct (ran_err (w h c)) as [e|]; [discriminate|].
  fold versionOutput.
  destruct (strings_Contains versionOutput "vboxdrv") eqn:Ec;
    [discriminate|].
  unfold versionRe_FindAllStringSubmatch.
  destruct (span dotOrDigit versionOutput) as [run rest] eqn:Es.
  apply span_correct in Es as (Hout & Hall & _).
  destruct run as [|x run]; [discriminate|].
  cbn. intros H. injection H as <- <-.
  split; [discriminate|]. split; [assumption|].
  split; [eauto|]. split; [reflexivity|]. split; [|reflexivity].
  intros Hsub. apply strings_Contains_correct in Hsub.
  change (strings_Contains versionOutput "vboxdrv" = true) in Hsub.
  rewrite Ec in Hsub. discriminate Hsub.
Qed.

Lemma Version_result_shape_witness :
  ("5.1.2" : gostring) <> []
  /\ forallb dotOrDigit "5.1.2" = true.
Proof.
  pose proof (@Version_result_shape
                (toolOfVersion ("5.1.2r1" ++ [LF])) sampleDriver []
                [mkCmd "/usr/bin/VBoxManage" ["--version" : gostring]]
                "5.1.2" eq_refl) as (H1 & H2 & _).
  split; [exact H1 | exact H2].
Defined.

(** X3: [Version] never panics and runs the version query and nothing
    else; when it returns an error the version it returns is empty, and
    an error of [cmd.Run], an exit status included, comes back as it
    is. *)
Theorem Version_total (w : World) (d : VBox42Driver) (h : History) :
  let c := mkCmd (VBoxManagePath d) ["--version" : gostring] in
  exists version err,
    Version w d h = (Returns (version, err), h ++ [c])
    /\ (err <> None -> version = [])
    /\ (forall e, ran_err (w h c) = Some e -> err = Some e).
Proof.
  intros c.
  unfold Version, bind, cmd_Run, ret. fold c.
  destruct (ran_err (w h c)) as [e|].
  { do 2 eexists. split; [reflexivity|]. split; [reflexivity|].
    intros e' H. exact H. }
  destruct (strings_Contains _ "vboxdrv").
  { do 2 eexists. split; [reflexivity|]. split; [reflexivity|].
    discriminate. }
  unfold versionRe_FindAllStringSubmatch.
  destruct (span dotOrDigit _) as [[|x run] rest].
  - do 2 eexists. split; [reflexivity|]. split; [reflexivity|].
    discriminate.
  - do 2 eexists. split; [reflexivity|].
    split; [intros H; now contradiction H | discriminate].
Qed.

Lemma Version_history (w : World) (d : VBox42Driver) (h h' : History)
    (r : Outcome (gostring * option error)) :
  Version w d h = (r, h') ->
  h' = h ++ [mkCmd (VBoxManagePath d) ["--version" : gostring]].
Proof.
  unfold Version, bind, cmd_Run, ret, lift.
  destruct (ran_err _); [intros H; now injection H as _ <-|].
  destruct (strings_Contains _ _); [intros H; now injection H as _ <-|].
  destruct (versionRe_FindAllStringSubmatch _) as [|m0 ms];
    [intros H; now injection H as _ <-|].
  destruct (negb _); [intros H; now injection H as _ <-|].
  destruct (index m0 1); intros H; now injection H as _ <-.
Qed.

(** X4: when the version cannot be resolved, or is resolved to a string
    the version library rejects, [CreateSATAController] returns an error
    and has run nothing but the version query: no controller is
    created. *)
Theorem CreateSATAController_unresolved_version (w : World)
    (d : VBox42Driver) (vmName name : gostring) (portcount : Z)
    (h h' : History) (version : gostring) (verr : option error) :
  Version w d h = (Returns (version, verr), h') ->
  verr <> None \/ (exists e, versionUtil.NewVersion version = inr e) ->
  h' = h ++ [mkCmd (VBoxManagePath d) ["--version" : gostring]]
  /\ exists e,
       CreateSATAController w d vmName name portcount h
       = (Returns (Some e), h').
Proof.
  intros Hver Hbad. split.
  - exact (@Version_history w d h h' _ Hver).
  - unfold CreateSATAController, bind at 1. rewrite Hver.
    destruct verr as [e|].
    + exists e. reflexivity.
    + destruct Hbad as [Hbad | (e & Hbad)]; [congruence|].
      rewrite Hbad. exists e. reflexivity.
Qed.

Lemma CreateSATAController_unresolved_version_witness :
  exists e,
    CreateSATAController (toolOfVersion ("4..3" ++ [LF])) sampleDriver
                         "vm" "SATA" 30 []
    = (Returns (Some e),
       [mkCmd "/usr/bin/VBoxManage" ["--version" : gostring]]).
Proof.
  refine (proj2 (@CreateSATAController_unresolved_version
                   (toolOfVersion ("4..3" ++ [LF])) sampleDriver
                   "vm" "SATA" 30 [] _ "4..3" None eq_refl _)).
  right. eexists. reflexivity.
Defined.

(** ** The path of the guest additions *)

Lemma notLF_forallb s :
  forallb (Not (Chr LF)) s = true <-> ~ In LF s.
Proof.
  induction s as [|c s IH]; cbn [forallb In].
  - split; auto.
  - rewrite andb_true_iff, IH. unfold Not, Chr.
    rewrite negb_true_iff. split.
    + intros [Hc Hs] [E | Hin]; [|contradiction].
      subst c. rewrite Ascii.eqb_refl in Hc. discriminate.
    + intros H. split.
      * destruct (Ascii.eqb LF c) eqn:E; [|reflexivity].
        apply Ascii.eqb_eq in E. exfalso. apply H. now left.
      * intros Hin. apply H. now right.
Qed.

Lemma strings_Split_no_sep sep s :
  forall piece, In piece (strings_Split s sep) -> ~ In sep piece.
Proof.
  induction s as [|c s IH]; cbn [strings_Split]; intros piece Hin.
  - destruct Hin as [<- | []]. auto.
  - destruct (Ascii.eqb c sep) eqn:E.
    + destruct Hin as [<- | Hin]; auto.
    + destruct (strings_Split s sep) as [|p ps].
      * destruct Hin as [<- | []]. intros [-> | []].
        rewrite Ascii.eqb_refl in E. discriminate.
      * destruct Hin as [<- | Hin].
        { intros [-> | Hp].
          - rewrite Ascii.eqb_refl in E. discriminate.
          - apply (IH p); [now left | assumption]. }
        apply IH. now right.
Qed.

Lemma dropLeading_suffix cutset s :
  exists dropped, s = dropped ++ dropLeading cutset s.
Proof.
  induction s as [|c s (dropped & IH)]; cbn [dropLeading].
  - exists []. reflexivity.
  - destruct (existsb (Ascii.eqb c) cutset).
    + exists (c :: dropped). simpl. now rewrite <- IH.
    + exists []. reflexivity.
Qed.

Lemma dropLeading_head cutset s :
  match dropLeading cutset s with
  | c :: _ => existsb (Ascii.eqb c) cutset = false
  | [] => True
  end.
Proof.
  induction s as [|c s IH]; cbn [dropLeading]; auto.
  destruct (existsb (Ascii.eqb c) cutset) eqn:E; auto.
Qed.

Lemma dropLeading_fixed cutset c s :
  existsb (Ascii.eqb c) cutset = false ->
  dropLeading cutset (c :: s) = c :: s.
Proof.
  intros H. cbn [dropLeading]. now rewrite H.
Qed.

(** What is left of a text that ends with a byte outside the cutset
    ends with that byte. *)
Lemma dropLeading_keeps_last cutset c s :
  existsb (Ascii.eqb c) cutset = false ->
  exists kept, dropLeading cutset (s ++ [c]) = kept ++ [c].
Proof.
  intros Hc. induction s as [|x s (kept & IH)].
  - exists []. simpl. now rewrite Hc.
  - change ((x :: s) ++ [c]) with (x :: s ++ [c]). cbn [dropLeading].
    destruct (existsb (Ascii.eqb x) cutset).
    + eauto.
    + exists (x :: s). reflexivity.
Qed.

Lemma strings_TrimRight_last cutset s :
  match rev (strings_TrimRight s cutset) with
  | c :: _ => existsb (Ascii.eqb c) cutset = false
  | [] => True
  end.
Proof.
  unfold strings_TrimRight. rewrite rev_involutive.
  apply dropLeading_head.
Qed.

Lemma strings_TrimRight_prefix cutset s :
  exists dropped, s = strings_TrimRight s cutset ++ dropped.
Proof.
  unfold strings_TrimRight.
  destruct (dropLeading_suffix cutset (rev s)) as (dropped & H).
  exists (rev dropped).
  rewrite <- rev_app_distr, <- H. now rewrite rev_involutive.
Qed.

Lemma dropLeading_idempotent cutset s :
  dropLeading cutset (dropLeading cutset s) = dropLeading cutset s.
Proof.
  pose proof (dropLeading_head cutset s) as H.
  destruct (dropLeading cutset s) as [|c t]; [reflexivity|].
  now apply dropLeading_fixed.
Qed.

(** A trimmed text that ended with a byte outside the cutset is not
    empty, and trimming it again changes nothing. *)
Lemma strings_Trim_last cutset c s :
  existsb (Ascii.eqb c) cutset = false ->
  strings_Trim (s ++ [c]) cutset <> []
  /\ strings_Trim (strings_Trim (s ++ [c]) cutset) cutset
     = strings_Trim (s ++ [c]) cutset.
Proof.
  intros Hc.
  assert (Htrim : forall t kept,
            dropLeading cutset t = kept ++ [c] ->
            strings_Trim t cutset = kept ++ [c]).
  { intros t kept E. unfold strings_Trim. rewrite E.
    rewrite rev_app_distr. cbn [rev app].
    rewrite (@dropLeading_fixed cutset c _ Hc).
    change (c :: rev kept) with ([c] ++ rev kept).
    now rewrite rev_app_distr, rev_involutive. }
  destruct (@dropLeading_keeps_last cutset c s Hc) as (kept & E).
  rewrite (Htrim _ _ E). split.
  - destruct kept; discriminate.
  - apply Htrim. rewrite <- E. apply dropLeading_idempotent.
Qed.

Lemma DefaultGuestAdditionsRe_words m :
  matches DefaultGuestAdditionsRe m <->
  exists group,
    m = additionsLabel ++ group /\ group <> [] /\ ~ In LF group.
Proof.
  unfold DefaultGuestAdditionsRe. split.
  - intros H. apply matches_Cat_inv in H as (s1 & group & -> & H1 & H2).
    apply matches_Lit in H1. subst s1.
    apply matches_Plus_Class in H2 as [Hne Hall].
    exists group. rewrite <- notLF_forallb. auto.
  - intros (group & -> & Hne & Hno).
    constructor; [now apply matches_Lit|].
    apply matches_Plus_Class. now rewrite notLF_forallb.
Qed.

Lemma additionsAt_sound s r :
  additionsAt s = Some r ->
  exists group post,
    s = additionsLabel ++ group ++ post
    /\ group <> [] /\ ~ In LF group
    /\ match post with [] => True | c :: _ => c = LF end
    /\ r = [additionsLabel ++ group; group].
Proof.
  unfold additionsAt.
  destruct (stripPrefix additionsLabel s) as [rest|] eqn:E; [|discriminate].
  apply stripPrefix_correct in E. subst s.
  destruct (span (Not (Chr LF)) rest) as [group post] eqn:Es.
  apply span_correct in Es as (-> & Hall & Hpost). cbn [fst].
  destruct group as [|x group]; [discriminate|].
  intros H. injection H as <-.
  exists (x :: group), post. split; [reflexivity|].
  split; [discriminate|]. split; [now apply notLF_forallb|].
  split; [|reflexivity].
  destruct post as [|c post]; [exact I|].
  unfold Not, Chr in Hpost. apply negb_false_iff in Hpost.
  apply Ascii.eqb_eq in Hpost. now subst c.
Qed.

Lemma additionsAt_complete group post :
  group <> [] -> ~ In LF group ->
  exists group',
    additionsAt (additionsLabel ++ group ++ post)
    = Some [additionsLabel ++ group'; group']
    /\ (post = [] -> group' = group).
Proof.
  intros Hne Hno. unfold additionsAt.
  rewrite (proj2 (stripPrefix_correct additionsLabel _ _) eq_refl).
  destruct (span (Not (Chr LF)) (group ++ post)) as [group' post'] eqn:Es.
  cbn [fst]. exists group'.
  destruct group' as [|x group'].
  - exfalso. destruct group as [|y group]; [contradiction|].
    cbn [app span] in Es.
    assert (Hy : Not (Chr LF) y = true).
    { apply notLF_forallb in Hno. cbn [forallb] in Hno.
      now apply andb_prop in Hno as [Hy _]. }
    rewrite Hy in Es.
    destruct (span (Not (Chr LF)) (group ++ post)). discriminate.
  - split; [reflexivity|]. intros ->. rewrite app_nil_r in Es.
    assert (Hs : span (Not (Chr LF)) group = (group, [])).
    { apply span_correct. rewrite app_nil_r.
      split; [reflexivity|]. split; [now apply notLF_forallb | exact I]. }
    rewrite Hs in Es. now injection Es as <- _.
Qed.

Lemma DefaultGuestAdditionsRe_FindStringSubmatch_unfold line :
  DefaultGuestAdditionsRe_FindStringSubmatch line
  = match additionsAt line with
    | Some m => m
    | None =>
        match line with
        | [] => []
        | _ :: line' => DefaultGuestAdditionsRe_FindStringSubmatch line'
        end
    end.
Proof.
  destruct line; reflexivity.
Qed.

(** The submatch function returns nil exactly when no substring of the
    line is in the language of the pattern. *)
Lemma DefaultGuestAdditionsRe_FindStringSubmatch_nil line :
  DefaultGuestAdditionsRe_FindStringSubmatch line = [] <->
  MatchString DefaultGuestAdditionsRe line = false.
Proof.
  rewrite <- not_true_iff_false, MatchString_correct. split.
  - intros Hnil (pre & m & post & -> & Hm).
    apply DefaultGuestAdditionsRe_words in Hm as (group & -> & Hne & Hno).
    induction pre as [|c pre IH];
      rewrite DefaultGuestAdditionsRe_FindStringSubmatch_unfold in Hnil.
    + cbn [app] in Hnil. rewrite <- app_assoc in Hnil.
      destruct (additionsAt_complete post Hne Hno) as (g' & E & _).
      rewrite E in Hnil. discriminate.
    + apply IH.
      destruct (additionsAt ((c :: pre) ++ (additionsLabel ++ group) ++ post))
        as [r|] eqn:E; [|assumption].
      apply additionsAt_sound in E as (g & p & _ & _ & _ & _ & ->).
      discriminate.
  - intros Hno. induction line as [|c line IH];
      rewrite DefaultGuestAdditionsRe_FindStringSubmatch_unfold.
    + destruct (additionsAt []) as [r|] eqn:E; [|reflexivity].
      apply additionsAt_sound in E as (g & p & E & _). discriminate.
    + destruct (additionsAt (c :: line)) as [r|] eqn:E.
      * apply additionsAt_sound in E as (g & p & E & Hne & Hg & _).
        exfalso. apply Hno. exists [], (additionsLabel ++ g), p.
        split; [now rewrite <- app_assoc|].
        apply DefaultGuestAdditionsRe_words. eauto.
      * apply IH. intros (pre & m & post & E' & Hm).
        apply Hno. exists (c :: pre), m, post. simpl. rewrite E'. auto.
Qed.

(** On a line without a line feed the match is the first occurrence of
    the label with something after it, and its group is all that is
    after it. *)
Lemma DefaultGuestAdditionsRe_on_line line :
  ~ In LF line ->
  (DefaultGuestAdditionsRe_FindStringSubmatch line = []
   /\ ~ exists pre value,
          value <> [] /\ line = pre ++ additionsLabel ++ value)
  \/
  (exists pre value,
     value <> [] /\ line = pre ++ additionsLabel ++ value
     /\ DefaultGuestAdditionsRe_FindStringSubmatch line
        = [additionsLabel ++ value; value]).
Proof.
  induction line as [|c line IH]; intros Hno;
    rewrite DefaultGuestAdditionsRe_FindStringSubmatch_unfold.
  - left. split; [reflexivity|].
    intros (pre & value & Hne & E). destruct pre; discriminate.
  - destruct (additionsAt (c :: line)) as [r|] eqn:E.
    + right. apply additionsAt_sound in E as (g & p & E & Hne & _ & Hp & ->).
      destruct p as [|x p].
      * exists [], g. rewrite app_nil_r in E. auto.
      * exfalso. subst x. apply Hno. rewrite E.
        apply in_or_app. right. apply in_or_app. right. now left.
    + destruct IH as [[Hnil Hnone] | (pre & value & Hne & Eline & Hfind)].
      { intros Hin. apply Hno. now right. }
      * left. split; [assumption|].
        intros (pre & value & Hne & Eline).
        destruct pre as [|x pre].
        -- cbn [app] in Eline.
           assert (Hv : ~ In LF value).
           { intros Hin. apply Hno. rewrite Eline.
             apply in_or_app. now right. }
           destruct (@additionsAt_complete value [] Hne Hv) as (g' & E' & _).
           rewrite app_nil_r, <- Eline, E in E'. discriminate.
        -- injection Eline as _ Eline. apply Hnone. eauto.
      * right. exists (c :: pre), value. subst line. auto.
Qed.

Lemma strings_TrimRight_no_LF line cutset :
  ~ In LF line -> ~ In LF (strings_TrimRight line cutset).
Proof.
  intros Hno Hin.
  destruct (strings_TrimRight_prefix cutset line) as (dropped & E).
  apply Hno. rewrite E. apply in_or_app. now left.
Qed.

(** The loop of [Iso] returns the value of the first line that carries
    the label, trimmed, and nothing when no line carries it. *)
Lemma findAdditions_spec lines :
  (forall line, In line lines -> ~ In LF line) ->
  (findAdditions lines = Returns None
   /\ forall line, In line lines -> ~ carriesAdditions line)
  \/
  (exists before line after pre value,
     lines = before ++ line :: after
     /\ (forall l, In l before -> ~ carriesAdditions l)
     /\ value <> []
     /\ strings_TrimRight line [" "%char; CR] = pre ++ additionsLabel ++ value
     /\ findAdditions lines
        = Returns (Some (strings_Trim value [" "%char; CR; LF]))).
Proof.
  induction lines as [|line lines IH]; intros Hno.
  - left. split; [reflexivity | intros line []].
  - cbn [findAdditions].
    destruct (@DefaultGuestAdditionsRe_on_line
                (strings_TrimRight line [" "%char; CR]))
      as [[Hnil Hnone] | (pre & value & Hne & Eline & Hfind)].
    { apply strings_TrimRight_no_LF. apply Hno. now left. }
    + rewrite Hnil.
      destruct IH as [[Hret Hall] | (before & l & after & pre & value & E
                                       & Hbefore & Hne & Hl & Hret)].
      { intros l Hl. apply Hno. now right. }
      * left. split; [assumption|].
        intros l [<- | Hl]; [exact Hnone | now apply Hall].
      * right. exists (line :: before), l, after, pre, value.
        split; [now rewrite E|]. split; [|auto].
        intros l' [<- | Hl']; [exact Hnone | now apply Hbefore].
    + right. exists [], line, lines, pre, value.
      rewrite Hfind. split; [reflexivity|].
      split; [intros l []|]. auto.
Qed.

(** X5: a path [Iso] returns with a nil error is never empty and bears
    no space, carriage return or line feed at either end; it is what
    follows the label on the first line of the output that carries the
    label, trimmed. *)
Theorem Iso_found (w : World) (d : VBox42Driver) (h h' : History)
    (isoname : gostring) :
  let c := mkCmd (VBoxManagePath d)
                 [ "list" : gostring; "systemproperties" : gostring ] in
  Iso w d h = (Returns (isoname, None), h') ->
  isoname <> []
  /\ strings_Trim isoname [" "%char; CR; LF] = isoname
  /\ ran_err (w h c) = None
  /\ exists before line after pre value,
       strings_Split (ran_stdout (w h c)) LF = before ++ line :: after
       /\ (forall l, In l before -> ~ carriesAdditions l)
       /\ strings_TrimRight line [" "%char; CR]
          = pre ++ additionsLabel ++ value
       /\ isoname = strings_Trim value [" "%char; CR; LF].
Proof.
  intros c. unfold Iso, bind, cmd_Run, ret, lift. fold c.
  destruct (ran_err (w h c)) as [e|]; [discriminate|].
  destruct (findAdditions_spec (strings_Split (ran_stdout (w h c)) LF))
    as [[Hret _] | (before & line & after & pre & value & E & Hbefore
                      & Hne & Hline & Hret)].
  { apply strings_Split_no_sep. }
  { rewrite Hret. discriminate. }
  rewrite Hret. intros H. injection H as <- _.
  assert (Hlast : exists v0 x,
             value = v0 ++ [x]
             /\ existsb (Ascii.eqb x) [" "%char; CR; LF] = false).
  { destruct (exists_last Hne) as (v0 & x & ->). exists v0, x.
    split; [reflexivity|].
    pose proof (strings_TrimRight_last [" "%char; CR] line) as Hx.
    rewrite Hline in Hx. repeat rewrite rev_app_distr in Hx.
    cbn [rev app] in Hx.
    assert (Hlf : x <> LF).
    { intros ->.
      apply (@strings_TrimRight_no_LF line [" "%char; CR]).
      - apply (strings_Split_no_sep LF (ran_stdout (w h c))).
        rewrite E. apply in_or_app. right. now left.
      - rewrite Hline. apply in_or_app. right. apply in_or_app. right.
        apply in_or_app. right. now left. }
    cbn [existsb] in *. apply orb_false_iff in Hx as [Hsp Hx].
    apply orb_false_iff in Hx as [Hcr _].
    rewrite Hsp, Hcr. cbn [orb].
    rewrite orb_false_r. apply Ascii.eqb_neq. assumption. }
  destruct Hlast as (v0 & x & -> & Hx).
  destruct (@strings_Trim_last [" "%char; CR; LF] x v0 Hx) as [Hn Hidem].
  split; [assumption|]. split; [assumption|]. split; [reflexivity|].
  exists before, line, after, pre, (v0 ++ [x]). auto.
Qed.

Lemma Iso_found_witness :
  Iso (always additionsSet) sampleDriver []
  = (Returns ("/opt/VBoxGuestAdditions.iso" : gostring, None),
     [mkCmd "/usr/bin/VBoxManage"
            [ "list" : gostring; "systemproperties" : gostring ]])
  /\ ("/opt/VBoxGuestAdditions.iso" : gostring) <> [].
Proof.
  split; [reflexivity|].
  exact (proj1 (@Iso_found (always additionsSet) sampleDriver [] _
                  "/opt/VBoxGuestAdditions.iso" eq_refl)).
Defined.

(** X6: when the query ran, [Iso] returns its "Cannot find" error
    exactly when no line of the output, its trailing spaces and carriage
    returns removed, holds the label followed by something; a label
    followed by blanks only counts as missing.  [Iso] never panics. *)
Theorem Iso_not_found (w : World) (d : VBox42Driver) (h : History) :
  let c := mkCmd (VBoxManagePath d)
                 [ "list" : gostring; "systemproperties" : gostring ] in
  ran_err (w h c) = None ->
  (exists isoname err, Iso w d h = (Returns (isoname, err), h ++ [c]))
  /\
  (Iso w d h = (Returns ([], Some additionsNotFound), h ++ [c])
   <->
   forall line,
     In line (strings_Split (ran_stdout (w h c)) LF) ->
     ~ carriesAdditions line).
Proof.
  intros c Herr. unfold Iso, bind, cmd_Run, ret, lift. fold c.
  rewrite Herr.
  destruct (findAdditions_spec (strings_Split (ran_stdout (w h c)) LF))
    as [[Hret Hall] | (before & line & after & pre & value & E & Hbefore
                         & Hne & Hline & Hret)].
  { apply strings_Split_no_sep. }
  - rewrite Hret. split; [eauto|]. split; auto.
  - rewrite Hret. split; [eauto|]. split; [discriminate|].
    intros Hall. exfalso. apply (Hall line).
    + rewrite E. apply in_or_app. right. now left.
    + exists pre, value. auto.
Qed.

Lemma Iso_not_found_witness :
  Iso (always additionsBlank) sampleDriver []
  = (Returns ([], Some additionsNotFound),
     [mkCmd "/usr/bin/VBoxManage"
            [ "list" : gostring; "systemproperties" : gostring ]])
  /\
  forall line,
    In line (strings_Split (ran_stdout additionsBlank) LF) ->
    ~ carriesAdditions line.
Proof.
  split; [reflexivity|].
  exact (proj1 (proj2 (@Iso_not_found (always additionsBlank) sampleDriver
                         [] eq_refl)) eq_refl).
Defined.

(** ** Records of the listing *)

Lemma snapshotPartsAt_record (type path value post : gostring) :
  type = "Name" \/ type = "UUID" ->
  wellFormedPath path -> quoteFree value ->
  snapshotPartsAt (record type path value ++ post)
  = Some [record type path value; type; path; lastGroup path; value].
Proof.
  intros Htype Hpath Hvalue. unfold snapshotPartsAt, record.
  repeat rewrite <- app_assoc.
  rewrite (proj2 (stripPrefix_correct "Snapshot" _ _) eq_refl).
  assert (Hty :
    match stripPrefix "Name" (type ++ path ++ "=" ++ [dquote] ++ value
                                ++ [dquote] ++ post),
          stripPrefix "UUID" (type ++ path ++ "=" ++ [dquote] ++ value
                                ++ [dquote] ++ post) with
    | Some r2, _ => Some ("Name" : gostring, r2)
    | None, Some r2 => Some ("UUID" : gostring, r2)
    | None, None => None
    end
    = Some (type, path ++ "=" ++ [dquote] ++ value ++ [dquote] ++ post)).
  { destruct Htype as [-> | ->].
    - now rewrite (proj2 (stripPrefix_correct "Name" _ _) eq_refl).
    - now rewrite (proj2 (stripPrefix_correct "UUID" _ _) eq_refl). }
  rewrite Hty.
  assert (Hspan : span pathByte (path ++ "=" ++ [dquote] ++ value
                                   ++ [dquote] ++ post)
                  = (path, "=" ++ [dquote] ++ value ++ [dquote] ++ post)).
  { apply span_correct. split; [reflexivity|]. split; [|reflexivity].
    eapply matches_Star_forallb; [apply pathGroupRe_bytes | exact Hpath]. }
  rewrite Hspan.
  rewrite (proj2 (fullMatch_correct _ _) Hpath).
  change ("=" ++ [dquote] ++ value ++ [dquote] ++ post)
    with (("=" ++ [dquote]) ++ value ++ [dquote] ++ post).
  rewrite (proj2 (stripPrefix_correct ("=" ++ [dquote]) _ _) eq_refl).
  assert (Hval : span (Not (Chr dquote)) (value ++ [dquote] ++ post)
                 = (value, [dquote] ++ post)).
  { apply span_correct. split; [reflexivity|]. split; [assumption|].
    reflexivity. }
  rewrite Hval.
  rewrite (proj2 (stripPrefix_correct [dquote] _ _) eq_refl).
  reflexivity.
Qed.

(** X7: a record of the listing read back gives its parts: for a type
    [Name] or [UUID], a well-formed path and a value without a double
    quote, the match of the pattern on the rendered record is the whole
    record, and its groups are the type, the path and the value. *)
Theorem FindStringSubmatch_record (type path value : gostring) :
  type = "Name" \/ type = "UUID" ->
  wellFormedPath path -> quoteFree value ->
  SnapshotNamePartsRe_FindStringSubmatch (record type path value)
  = [record type path value; type; path; lastGroup path; value].
Proof.
  intros Htype Hpath Hvalue.
  rewrite SnapshotNamePartsRe_FindStringSubmatch_unfold.
  rewrite <- (app_nil_r (record type path value)) at 1.
  now rewrite snapshotPartsAt_record.
Qed.

Lemma wellFormedPath_check (path : gostring) :
  fullMatch (Star pathGroupRe) path = true -> wellFormedPath path.
Proof.
  apply fullMatch_correct.
Qed.

Lemma wellFormedPath_1_2 : wellFormedPath "-1-2".
Proof.
  apply fullMatch_correct. reflexivity.
Qed.

Lemma FindStringSubmatch_record_witness :
  SnapshotNamePartsRe_FindStringSubmatch
    (record "UUID" "-1-2" "4f5a-11")
  = [record "UUID" "-1-2" "4f5a-11"; "UUID" : gostring; "-1-2" : gostring;
     "-2" : gostring; "4f5a-11" : gostring].
Proof.
  exact (@FindStringSubmatch_record "UUID" "-1-2" "4f5a-11"
           (or_intror eq_refl) wellFormedPath_1_2 eq_refl).
Defined.

Lemma strings_Index_found sub pre : forall post,
  0 <= strings_Index (pre ++ sub ++ post) sub.
Proof.
  induction pre as [|c pre IH]; intros post.
  - cbn [app].
    assert (H : strings_HasPrefix (sub ++ post) sub = true).
    { apply strings_HasPrefix_correct. eauto. }
    destruct (sub ++ post); cbn [strings_Index]; rewrite H; lia.
  - cbn [app strings_Index].
    destruct (strings_HasPrefix (c :: pre ++ sub ++ post) sub); [lia|].
    specialize (IH post).
    destruct (Z.ltb_spec (strings_Index (pre ++ sub ++ post) sub) 0); lia.
Qed.

Lemma strings_Index_later sub c s :
  strings_HasPrefix (c :: s) sub = false ->
  0 <= strings_Index s sub ->
  strings_Index (c :: s) sub > 0.
Proof.
  intros Hp Hs. cbn [strings_Index]. rewrite Hp.
  destruct (Z.ltb_spec (strings_Index s sub) 0); lia.
Qed.

Lemma strings_Index_record key path value :
  strings_Index (record key path value) "=" > 0.
Proof.
  unfold record.
  change ("Snapshot" ++ key ++ path ++ "=" ++ [dquote] ++ value ++ [dquote])
    with ("S"%char :: ("napshot" ++ key ++ path ++ "=" ++ [dquote] ++ value
                         ++ [dquote])).
  apply strings_Index_later; [reflexivity|].
  pose proof (strings_Index_found "=" ("napshot" ++ key ++ path)
                ([dquote] ++ value ++ [dquote])) as H.
  repeat rewrite <- app_assoc in H. exact H.
Qed.

Lemma scanLine_Name_record l path value :
  wellFormedPath path -> quoteFree value ->
  scanLine l (record "Name" path value) = nameRecord l path value.
Proof.
  intros Hpath Hvalue. unfold scanLine.
  pose proof (strings_Index_record "Name" path value) as Hidx.
  destruct (Z.gtb_spec (strings_Index (record "Name" path value) "=") 0);
    [|lia].
  change (strings_HasPrefix (record "Name" path value) "Current")
    with false.
  cbv iota.
  assert (Hm : SnapshotNamePartsRe_FindStringSubmatch (record "Name" path value)
               = [record "Name" path value; "Name" : gostring; path;
                  lastGroup path; value]).
  { rewrite SnapshotNamePartsRe_FindStringSubmatch_unfold.
    rewrite <- (app_nil_r (record "Name" path value)) at 1.
    now rewrite (@snapshotPartsAt_record "Name" path value []
                   (or_introl eq_refl) Hpath Hvalue). }
  rewrite Hm.
  reflexivity.
Qed.

Lemma scanLine_UUID_record l path value :
  wellFormedPath path -> quoteFree value ->
  scanLine l (record "UUID" path value)
  = (h <~ store (heap l) (node l) (setUUID value) ;;
     Returns (mkLocals h (rootNode l) (currentIndicator l) (parentStack l)
                       (node l))).
Proof.
  intros Hpath Hvalue. unfold scanLine.
  pose proof (strings_Index_record "UUID" path value) as Hidx.
  destruct (Z.gtb_spec (strings_Index (record "UUID" path value) "=") 0);
    [|lia].
  change (strings_HasPrefix (record "UUID" path value) "Current")
    with false.
  cbv iota.
  assert (Hm : SnapshotNamePartsRe_FindStringSubmatch (record "UUID" path value)
               = [record "UUID" path value; "UUID" : gostring; path;
                  lastGroup path; value]).
  { rewrite SnapshotNamePartsRe_FindStringSubmatch_unfold.
    rewrite <- (app_nil_r (record "UUID" path value)) at 1.
    now rewrite (@snapshotPartsAt_record "UUID" path value []
                   (or_intror eq_refl) Hpath Hvalue). }
  rewrite Hm.
  reflexivity.
Qed.

(** ** Where a new node is hung *)

(** The heap after a node is allocated at [a], hung under [pa] and
    named. *)
Lemma heap_after_append (h : Heap) (pa : nat) (c : VBoxSnapshot)
    (value : gostring) :
  nth_error h pa = Some c ->
  let a := length h in
  let h' := update (update (fst (new h)) pa (appendChild a)) a
                   (setName value) in
  nth_error h' pa = Some (appendChild a c)
  /\ nth_error h' a = Some (mkVBoxSnapshot value [] false [])
  /\ length h' = S (length h)
  /\ forall b, b <> pa -> (b < length h)%nat ->
               nth_error h' b = nth_error h b.
Proof.
  intros Hpa a h'.
  assert (Hlt : (pa < length h)%nat).
  { apply nth_error_Some. congruence. }
  assert (Hlen : length (h ++ [mkVBoxSnapshot [] [] false []])
                 = S (length h)).
  { rewrite length_app. cbn [length]. lia. }
  subst h'. cbn [new fst].
  split; [|split; [|split]].
  - rewrite nth_error_update.
    destruct (Nat.eqb_spec a pa) as [E | _]; [subst a; lia|].
    rewrite nth_error_update, Nat.eqb_refl.
    rewrite nth_error_app1 by assumption. now rewrite Hpa.
  - rewrite nth_error_update, Nat.eqb_refl.
    rewrite nth_error_update.
    destruct (Nat.eqb_spec pa a) as [E | _]; [subst a; lia|].
    rewrite nth_error_app2 by (subst a; lia).
    replace (a - length h)%nat with 0%nat by (subst a; lia).
    reflexivity.
  - now repeat rewrite update_length.
  - intros b Hb Hltb. repeat rewrite nth_error_update.
    destruct (Nat.eqb_spec a b) as [E | _]; [subst a; lia|].
    destruct (Nat.eqb_spec pa b) as [E | _]; [congruence|].
    now rewrite nth_error_app1.
Qed.

(** X8: a [Name] record deeper than the indicator held makes a node
    that becomes the last child of the node of the previous [Name]
    record; that node is pushed on the stack, the path of the record
    becomes the indicator, and no other cell changes. *)
Theorem scanLine_deeper_record (l : Locals) (path value : gostring)
    (root cur : nat) (c : VBoxSnapshot) :
  wellFormedPath path -> quoteFree value ->
  rootNode l = Some root ->
  node l = Some cur ->
  nth_error (heap l) cur = Some c ->
  strings_Count path "-" > strings_Count (currentIndicator l) "-" ->
  exists l',
    scanLine l (record "Name" path value) = Returns l'
    /\ node l' = Some (length (heap l))
    /\ currentIndicator l' = path
    /\ parentStack l' = Some cur :: parentStack l
    /\ rootNode l' = Some root
    /\ nth_error (heap l') cur = Some (appendChild (length (heap l)) c)
    /\ nth_error (heap l') (length (heap l))
       = Some (mkVBoxSnapshot value [] false [])
    /\ length (heap l') = S (length (heap l))
    /\ forall b, b <> cur -> (b < length (heap l))%nat ->
                 nth_error (heap l') b = nth_error (heap l) b.
Proof.
  intros Hpath Hvalue Hroot Hnode Hc Hgt.
  rewrite (scanLine_Name_record l Hpath Hvalue).
  unfold nameRecord, adjust. rewrite Hroot.
  destruct (Z.gtb_spec (strings_Count path "-")
              (strings_Count (currentIndicator l) "-")); [|lia].
  rewrite Hnode. cbn [new stack.Push stack.Peek obind node heap store].
  eexists. split; [reflexivity|].
  cbn [node currentIndicator parentStack rootNode heap].
  destruct (@heap_after_append (heap l) cur c value Hc) as (H1 & H2 & H3 & H4).
  cbn [new fst] in H1, H2, H3, H4. auto 10.
Qed.

Lemma scanLine_deeper_record_witness :
  exists l',
    scanLine afterThree (record "Name" "-1-1-1" "e") = Returns l'
    /\ parentStack l' = [Some 2%nat; Some 1%nat; Some 0%nat]
    /\ nth_error (heap l') 2 = Some (mkVBoxSnapshot "c" [] false [3%nat]).
Proof.
  destruct (@scanLine_deeper_record afterThree "-1-1-1" "e" 0%nat 2%nat
              (mkVBoxSnapshot "c" [] false [])
              (wellFormedPath_check "-1-1-1" eq_refl) eq_refl
              eq_refl eq_refl eq_refl eq_refl)
    as (l' & Hs & _ & _ & Hstack & _ & Hcell & _).
  exists l'. split; [exact Hs|]. split; [exact Hstack | exact Hcell].
Defined.

(** X9: a [Name] record as deep as the indicator held makes a node that
    becomes the last child of the node on top of the stack, a sibling of
    the previous node; the stack and the indicator stay as they are. *)
Theorem scanLine_sibling_record (l : Locals) (path value : gostring)
    (root pa : nat) (rest : list ptr) (c : VBoxSnapshot) :
  wellFormedPath path -> quoteFree value ->
  rootNode l = Some root ->
  parentStack l = Some pa :: rest ->
  nth_error (heap l) pa = Some c ->
  strings_Count path "-" = strings_Count (currentIndicator l) "-" ->
  exists l',
    scanLine l (record "Name" path value) = Returns l'
    /\ node l' = Some (length (heap l))
    /\ currentIndicator l' = currentIndicator l
    /\ parentStack l' = parentStack l
    /\ rootNode l' = Some root
    /\ nth_error (heap l') pa = Some (appendChild (length (heap l)) c)
    /\ nth_error (heap l') (length (heap l))
       = Some (mkVBoxSnapshot value [] false [])
    /\ length (heap l') = S (length (heap l))
    /\ forall b, b <> pa -> (b < length (heap l))%nat ->
                 nth_error (heap l') b = nth_error (heap l) b.
Proof.
  intros Hpath Hvalue Hroot Hstack Hc Heq.
  rewrite (scanLine_Name_record l Hpath Hvalue).
  unfold nameRecord, adjust. rewrite Hroot.
  destruct (Z.gtb_spec (strings_Count path "-")
              (strings_Count (currentIndicator l) "-")); [lia|].
  destruct (Z.ltb_spec (strings_Count path "-")
              (strings_Count (currentIndicator l) "-")); [lia|].
  rewrite Hstack. cbn [new stack.Peek obind node heap store].
  eexists. split; [reflexivity|].
  cbn [node currentIndicator parentStack rootNode heap].
  destruct (@heap_after_append (heap l) pa c value Hc) as (H1 & H2 & H3 & H4).
  cbn [new fst] in H1, H2, H3, H4. auto 10.
Qed.

Lemma scanLine_sibling_record_witness :
  exists l',
    scanLine afterThree (record "Name" "-1-2" "e") = Returns l'
    /\ parentStack l' = [Some 1%nat; Some 0%nat]
    /\ nth_error (heap l') 1
       = Some (mkVBoxSnapshot "b" [] false [2%nat; 3%nat]).
Proof.
  destruct (@scanLine_sibling_record afterThree "-1-2" "e" 0%nat 1%nat
              [Some 0%nat] (mkVBoxSnapshot "b" [] false [2%nat])
              (wellFormedPath_check "-1-2" eq_refl) eq_refl
              eq_refl eq_refl eq_refl eq_refl)
    as (l' & Hs & _ & _ & Hstack & _ & Hcell & _).
  exists l'. split; [exact Hs|]. split; [exact Hstack | exact Hcell].
Defined.

(** X10: a line that starts with ["Current"], or a [UUID] record, that
    comes before every [Name] record makes the parser write through a
    nil pointer: the parse panics. *)
Theorem scanLines_record_before_name (txt : gostring)
    (rest : list gostring) :
  strings_Index txt "=" > 0 ->
  strings_HasPrefix txt "Current" = true
  \/ (exists path value,
        wellFormedPath path /\ quoteFree value
        /\ txt = record "UUID" path value) ->
  scanLines initialLocals (txt :: rest) = Panics NilPointerDereference
  /\ forall l, node l = None -> scanLine l txt = Panics NilPointerDereference.
Proof.
  intros Hidx Hkind.
  assert (H : forall l, node l = None ->
                        scanLine l txt = Panics NilPointerDereference).
  { intros l Hnode.
    destruct Hkind as [Hcur | (path & value & Hpath & Hvalue & ->)].
    - unfold scanLine.
      destruct (Z.gtb_spec (strings_Index txt "=") 0); [|lia].
      rewrite Hcur, Hnode. reflexivity.
    - rewrite (scanLine_UUID_record l Hpath Hvalue), Hnode. reflexivity. }
  split; [|exact H].
  cbn [scanLines]. now rewrite H.
Qed.

Lemma scanLines_record_before_name_witness :
  scanLines initialLocals
    [ record "UUID" "" "4f5a-11"; record "Name" "" "a" ]
  = Panics NilPointerDereference.
Proof.
  refine (proj1 (@scanLines_record_before_name (record "UUID" "" "4f5a-11")
                   [record "Name" "" "a"] eq_refl _)).
  right. exists [], ("4f5a-11" : gostring).
  split; [constructor|]. split; reflexivity.
Defined.

Lemma popTimes_nil n : popTimes n [] = [].
Proof.
  rewrite popTimes_skipn. now destruct n.
Qed.

(** X11: while the stack is empty, as it is after the root alone, a
    [Name] record that is not deeper than the indicator held finds no
    parent: the conversion of the nil interface panics.  Two [Name]
    records in a row, the second not deeper than the first, cannot be
    loaded. *)
Theorem scanLine_no_parent (l : Locals) (path value : gostring)
    (root : nat) :
  wellFormedPath path -> quoteFree value ->
  rootNode l = Some root ->
  parentStack l = [] ->
  strings_Count path "-" <= strings_Count (currentIndicator l) "-" ->
  scanLine l (record "Name" path value) = Panics NilInterfaceConversion
  /\ forall path0 value0 rest,
       wellFormedPath path0 -> quoteFree value0 ->
       strings_Count path "-" <= strings_Count path0 "-" ->
       scanLines initialLocals
         (record "Name" path0 value0 :: record "Name" path value :: rest)
       = Panics NilInterfaceConversion.
Proof.
  intros Hpath Hvalue Hroot Hstack Hle.
  assert (H : forall l0 root0,
            rootNode l0 = Some root0 -> parentStack l0 = [] ->
            strings_Count path "-"
            <= strings_Count (currentIndicator l0) "-" ->
            scanLine l0 (record "Name" path value)
            = Panics NilInterfaceConversion).
  { intros l0 root0 Hr Hs Hc.
    rewrite (scanLine_Name_record l0 Hpath Hvalue).
    unfold nameRecord, adjust. rewrite Hr, Hs.
    destruct (Z.gtb_spec (strings_Count path "-")
                (strings_Count (currentIndicator l0) "-")); [lia|].
    destruct (Z.ltb_spec (strings_Count path "-")
                (strings_Count (currentIndicator l0) "-"));
      [rewrite popTimes_nil|]; reflexivity. }
  split; [now apply (H l root)|].
  intros path0 value0 rest Hpath0 Hvalue0 Hle0.
  cbn [scanLines].
  rewrite (scanLine_Name_record initialLocals Hpath0 Hvalue0).
  cbn [nameRecord initialLocals rootNode new heap obind store node
       parentStack currentIndicator app length update].
  rewrite (H _ 0%nat); [reflexivity | reflexivity | reflexivity | exact Hle0].
Qed.

Lemma scanLine_no_parent_witness :
  scanLines initialLocals
    [ record "Name" "" "a"; record "Name" "" "b" ]
  = Panics NilInterfaceConversion.
Proof.
  refine (proj2 (@scanLine_no_parent
                   (mkLocals [mkVBoxSnapshot "a" [] false []] (Some 0%nat)
                             [] [] (Some 0%nat))
                   "" "b" 0%nat _ eq_refl eq_refl eq_refl _)
                "" "a" [] _ eq_refl _).
  - constructor.
  - discriminate.
  - constructor.
  - discriminate.
Defined.

(** ** What every line of the listing does to the heap *)

Lemma index_nth l i x : index l i = Returns x -> nth i l [] = x.
Proof.
  unfold index. destruct (nth_error l i) as [y|] eqn:E; [|discriminate].
  intros H. injection H as <-. now apply nth_error_nth.
Qed.

(** A line leaves the variables alone, or writes a field other than
    [Children] through the current node, or is a [Name] record. *)
Lemma scanLine_cases l txt l' :
  scanLine l txt = Returns l' ->
  (l' = l /\ isNameRecord txt = false)
  \/ (exists a f,
        node l = Some a
        /\ (forall c, Children (f c) = Children c)
        /\ l' = mkLocals (update (heap l) a f) (rootNode l)
                         (currentIndicator l) (parentStack l) (node l)
        /\ isNameRecord txt = false)
  \/ (exists path value,
        isNameRecord txt = true /\ nameRecord l path value = Returns l').
Proof.
  unfold scanLine, isNameRecord.
  destruct (strings_Index txt "=" >? 0);
    [|intros H; injection H as <-; now left].
  destruct (strings_HasPrefix txt "Current").
  - destruct (node l) as [a|] eqn:En; [|discriminate].
    cbn [store obind andb negb]. intros H. injection H as <-.
    right. left. exists a, (setIsCurrent true). auto.
  - cbn [andb negb].
    destruct (index _ 0) as [m0|]; [|discriminate]. cbn [obind].
    destruct (index _ 1) as [type|] eqn:E1; [|discriminate]. cbn [obind].
    destruct (index _ 2) as [path|]; [|discriminate]. cbn [obind].
    destruct (index _ 3) as [leaf|]; [|discriminate]. cbn [obind].
    destruct (index _ 4) as [value|]; [|discriminate]. cbn [obind].
    apply index_nth in E1. rewrite E1.
    destruct (gostring_eqb type "Name").
    + intros H. right. right. eauto.
    + destruct (gostring_eqb type "UUID");
        [|intros H; injection H as <-; now left].
      destruct (node l) as [a|] eqn:En; [|discriminate].
      cbn [store obind]. intros H. injection H as <-.
      right. left. exists a, (setUUID value). auto.
Qed.

Lemma adjust_stack l path :
  snd (adjust l path) = node l :: parentStack l
  \/ (exists n, snd (adjust l path) = skipn n (parentStack l)).
Proof.
  unfold adjust.
  destruct (strings_Count path "-" >? strings_Count (currentIndicator l) "-").
  - now left.
  - right.
    destruct (strings_Count path "-" <? strings_Count (currentIndicator l) "-").
    + eexists. cbn [snd]. apply popTimes_skipn.
    + exists 0%nat. reflexivity.
Qed.

(** A [Name] record allocates one cell, names it, and, when there is a
    root already, hangs it under the top of the adjusted stack. *)
Lemma nameRecord_cases l path value l' :
  nameRecord l path value = Returns l' ->
  let a := length (heap l) in
  node l' = Some a
  /\ ((rootNode l = None
       /\ rootNode l' = Some a
       /\ parentStack l' = parentStack l
       /\ heap l' = update (fst (new (heap l))) a (setName value))
      \/
      (exists root parent,
         rootNode l = Some root
         /\ rootNode l' = Some root
         /\ parentStack l' = snd (adjust l path)
         /\ stack.Peek (parentStack l') = Some parent
         /\ heap l'
            = update match parent with
                     | Some pa => update (fst (new (heap l))) pa
                                         (appendChild a)
                     | None => fst (new (heap l))
                     end a (setName value))).
Proof.
  intros H. cbv zeta. unfold nameRecord in H.
  destruct (rootNode l) as [root|] eqn:Er.
  - destruct (adjust l path) as [indicator stk] eqn:Ea.
    cbn [new] in H.
    destruct (stack.Peek stk) as [parent|] eqn:Ep; [|discriminate].
    cbn [obind node heap store] in H. injection H as <-.
    cbn [node rootNode parentStack heap snd new fst].
    split; [reflexivity|]. right. exists root, parent. auto.
  - cbn [new obind node heap store] in H. injection H as <-.
    cbn [node rootNode parentStack heap new fst].
    split; [reflexivity|]. left. auto.
Qed.

Lemma allChildren_update f :
  (forall c, Children (f c) = Children c) ->
  forall h a, allChildren (update h a f) = allChildren h.
Proof.
  intros Hf. unfold allChildren.
  induction h as [|c h IH]; intros [|a]; cbn [update map concat]; auto.
  - now rewrite Hf.
  - now rewrite IH.
Qed.

Lemma allChildren_new h : allChildren (fst (new h)) = allChildren h.
Proof.
  unfold allChildren. cbn [new fst].
  rewrite map_app, concat_app. cbn. now rewrite app_nil_r.
Qed.

Lemma allChildren_appendChild a : forall h pa,
  (pa < length h)%nat ->
  Permutation (allChildren (update h pa (appendChild a)))
              (a :: allChildren h).
Proof.
  unfold allChildren.
  induction h as [|c h IH]; intros pa Hpa; [cbn in Hpa; lia|].
  destruct pa as [|pa]; cbn [update map concat appendChild Children].
  - rewrite <- app_assoc. cbn [app].
    apply Permutation_sym, Permutation_middle.
  - cbn [length] in Hpa.
    eapply Permutation_trans;
      [apply Permutation_app_head; apply IH; lia|].
    apply Permutation_sym, Permutation_middle.
Qed.

Lemma update_head_some f h a :
  match update h a f with [] => None | _ :: _ => Some 0%nat end
  = match h with [] => @None nat | _ :: _ => Some 0%nat end.
Proof.
  destruct h, a; reflexivity.
Qed.

Lemma TreeShaped_write l a f :
  (forall c, Children (f c) = Children c) ->
  TreeShaped l ->
  TreeShaped (mkLocals (update (heap l) a f) (rootNode l)
                       (currentIndicator l) (parentStack l) (node l)).
Proof.
  intros Hf [HI Hp Hr Hn Hs].
  constructor; cbn [heap rootNode node parentStack].
  - apply (@Inv_store l (Some a) f _ Hf HI eq_refl).
  - now rewrite allChildren_update, update_length.
  - now rewrite update_head_some.
  - intros Hne. apply Hn. intros E. apply Hne. now rewrite E.
  - assumption.
Qed.

Lemma TreeShaped_nameRecord l path value l' :
  TreeShaped l -> nameRecord l path value = Returns l' -> TreeShaped l'.
Proof.
  intros HT Hrec.
  pose proof (Inv_nameRecord _ _ (tree_forest HT) Hrec) as HI'.
  destruct HT as [HI Hp Hr Hn Hs].
  apply nameRecord_cases in Hrec as (Hnode & Hcases).
  assert (Hnew : length (fst (new (heap l))) = S (length (heap l))).
  { cbn [new fst]. rewrite length_app. cbn [length]. lia. }
  destruct Hcases as [(Hnone & Hroot' & Hstack' & Hheap')
                     | (root & parent & Hsome & Hroot' & Hstack' & Hpeek
                          & Hheap')].
  - assert (Hempty : heap l = []).
    { destruct (heap l); [reflexivity|]. rewrite Hnone in Hr. discriminate. }
    constructor; auto.
    + rewrite Hheap', allChildren_update, update_length, Hnew, Hempty
        by reflexivity. constructor.
    + rewrite Hroot', Hheap', Hempty. reflexivity.
    + intros _. rewrite Hnode. discriminate.
    + now rewrite Hstack'.
  - assert (Hne : heap l <> []).
    { intros E. rewrite E, Hsome in Hr. discriminate. }
    assert (Hstk : Forall notNil (parentStack l')).
    { rewrite Hstack'.
      destruct (adjust_stack l path) as [-> | (n & ->)].
      - constructor; auto.
      - rewrite <- (firstn_skipn n (parentStack l)) in Hs.
        apply Forall_app in Hs. tauto. }
    assert (Hok : Forall (ptrOK (heap l)) (parentStack l')).
    { rewrite Hstack'.
      destruct (adjust_stack l path) as [-> | (n & ->)].
      - constructor; [apply (inv_node HI) | apply (inv_stack HI)].
      - pose proof (inv_stack HI) as Hall.
        rewrite <- (firstn_skipn n (parentStack l)) in Hall.
        apply Forall_app in Hall. tauto. }
    assert (Hpa : exists pa, parent = Some pa /\ (pa < length (heap l))%nat).
    { destruct (parentStack l') as [|top stk]; [discriminate|].
      cbn [stack.Peek] in Hpeek. injection Hpeek as Etop.
      inversion Hstk as [|? ? Htop _].
      inversion Hok as [|? ? Hlive _].
      subst top. destruct parent as [pa|]; [|now contradiction Htop].
      exists pa. split; [reflexivity | exact Hlive]. }
    destruct Hpa as (pa & -> & Hlt).
    constructor; auto.
    + rewrite Hheap', allChildren_update, update_length, update_length, Hnew
        by reflexivity.
      eapply Permutation_trans;
        [apply allChildren_appendChild; rewrite Hnew; lia|].
      rewrite allChildren_new.
      replace (S (length (heap l)) - 1)%nat
        with (S (length (heap l) - 1))%nat
        by (destruct (heap l); [contradiction | cbn [length]; lia]).
      rewrite seq_S.
      replace (1 + (length (heap l) - 1))%nat with (length (heap l))
        by (destruct (heap l); [contradiction | cbn [length]; lia]).
      now apply Permutation_cons_app; rewrite app_nil_r.
    + rewrite Hroot', Hheap'. rewrite update_head_some.
      cbn [new fst]. rewrite update_head_some.
      rewrite Hsome in Hr. destruct (heap l); [contradiction|].
      cbn [app]. exact Hr.
    + intros _. rewrite Hnode. discriminate.
Qed.

Lemma TreeShaped_scanLine l txt l' :
  TreeShaped l -> scanLine l txt = Returns l' -> TreeShaped l'.
Proof.
  intros HT H.
  apply scanLine_cases in H
    as [[-> _] | [(a & f & _ & Hf & -> & _) | (path & value & _ & H)]].
  - assumption.
  - now apply TreeShaped_write.
  - eapply TreeShaped_nameRecord; eassumption.
Qed.

Lemma TreeShaped_initialLocals : TreeShaped initialLocals.
Proof.
  constructor; cbn; auto using Inv_initialLocals.
  intros H. now contradiction H.
Qed.

Lemma TreeShaped_scanLines (lines : list gostring) :
  forall l l',
    TreeShaped l -> scanLines l lines = Returns l' -> TreeShaped l'.
Proof.
  induction lines as [|txt lines IH]; intros l l' HT; cbn [scanLines].
  - intros H. now injection H as <-.
  - destruct (scanLine l txt) as [l1|] eqn:E; [|discriminate].
    cbn [obind]. apply IH. eapply TreeShaped_scanLine; eassumption.
Qed.

(** X12: every node but the root is the child of exactly one node.
    After any listing the parser reads to the end, the cells of the heap
    are a tree whose root is the first cell: the children of all the
    cells together are the other cells, each once, every child is
    allocated after its parent, and neither the current node nor an
    entry of the stack is nil or dangling. *)
Theorem scanLines_tree (lines : list gostring) (l : Locals) :
  scanLines initialLocals lines = Returns l ->
  Permutation (allChildren (heap l)) (seq 1 (length (heap l) - 1))
  /\ childrenOK (heap l)
  /\ rootNode l = match heap l with [] => None | _ :: _ => Some 0%nat end
  /\ (heap l <> [] -> notNil (node l))
  /\ ptrOK (heap l) (node l)
  /\ Forall (fun p => notNil p /\ ptrOK (heap l) p) (parentStack l).
Proof.
  intros H.
  destruct (TreeShaped_scanLines _ TreeShaped_initialLocals H)
    as [[Hc Hn Hr Hs] Hp Hroot Hnode Hstack].
  repeat (split; [assumption|]).
  rewrite Forall_forall in *. intros p Hin. split; auto.
Qed.

Lemma scanLines_tree_witness :
  exists l,
    scanLines initialLocals twoBranchesDeep = Returns l
    /\ Permutation (allChildren (heap l)) [1; 2; 3; 4]%nat
    /\ rootNode l = Some 0%nat.
Proof.
  eexists.
  assert (Hscan : scanLines initialLocals twoBranchesDeep = Returns _)
    by (vm_compute; reflexivity).
  split; [exact Hscan|].
  pose proof (@scanLines_tree twoBranchesDeep _ Hscan)
    as (Hp & _ & Hr & _).
  split; [exact Hp | exact Hr].
Defined.

Lemma scanLine_allocates l txt l' :
  scanLine l txt = Returns l' ->
  length (heap l')
  = (length (heap l) + if isNameRecord txt then 1 else 0)%nat.
Proof.
  intros H.
  apply scanLine_cases in H
    as [[-> ->] | [(a & f & _ & _ & -> & ->) | (path & value & -> & H)]].
  - lia.
  - cbn [heap]. rewrite update_length. lia.
  - apply nameRecord_cases in H as (_ & Hcases).
    assert (Hnew : length (fst (new (heap l))) = S (length (heap l))).
    { cbn [new fst]. rewrite length_app. cbn [length]. lia. }
    destruct Hcases as [(_ & _ & _ & ->) | (root & parent & _ & _ & _ & _ & ->)].
    + rewrite update_length, Hnew. lia.
    + rewrite update_length.
      destruct parent; rewrite ?update_length, Hnew; lia.
Qed.

Lemma scanLines_allocates lines : forall l l',
  scanLines l lines = Returns l' ->
  length (heap l')
  = (length (heap l) + length (filter isNameRecord lines))%nat.
Proof.
  induction lines as [|txt lines IH]; intros l l'; cbn [scanLines filter].
  - intros H. injection H as <-. cbn [length]. lia.
  - destruct (scanLine l txt) as [l1|] eqn:E; [|discriminate].
    cbn [obind]. intros H. apply IH in H. apply scanLine_allocates in E.
    rewrite H, E. destruct (isNameRecord txt); cbn [length]; lia.
Qed.

Lemma filter_nil_iff (A : Type) (f : A -> bool) (xs : list A) :
  filter f xs = [] <-> forall x, In x xs -> f x = false.
Proof.
  induction xs as [|x xs IH]; cbn [filter].
  - split; [intros _ y [] | reflexivity].
  - destruct (f x) eqn:E.
    + split; [discriminate|]. intros Hall.
      rewrite (Hall x) in E by now left. discriminate.
    + rewrite IH. split.
      * intros Hall y [<- | Hy]; auto.
      * intros Hall y Hy. apply Hall. now right.
Qed.

Lemma scanLines_root_nil (lines : list gostring) (l : Locals) :
  scanLines initialLocals lines = Returns l ->
  rootNode l = None <->
  forall txt, In txt lines -> isNameRecord txt = false.
Proof.
  intros H.
  pose proof (TreeShaped_scanLines _ TreeShaped_initialLocals H) as HT.
  apply scanLines_allocates in H. cbn [initialLocals heap length] in H.
  rewrite (tree_root HT), <- filter_nil_iff.
  destruct (heap l) as [|c h]; destruct (filter isNameRecord lines);
    cbn [length] in H; try discriminate; split; auto; discriminate.
Qed.

(** X13: a listing read to the end leaves as many nodes as it has [Name]
    records, one for each; no other line makes a node.  The root is nil
    exactly when the listing has no [Name] record. *)
Theorem scanLines_node_count (lines : list gostring) (l : Locals) :
  scanLines initialLocals lines = Returns l ->
  length (heap l) = length (filter isNameRecord lines)
  /\ (rootNode l = None <->
      forall txt, In txt lines -> isNameRecord txt = false).
Proof.
  intros H. split.
  - apply scanLines_allocates in H. exact H.
  - exact (scanLines_root_nil _ H).
Qed.

Lemma scanLines_node_count_witness :
  exists l,
    scanLines initialLocals
      (twoBranchesDeep ++ [record "UUID" "-2-1" "4f5a-11"])
    = Returns l
    /\ length (heap l) = 5%nat.
Proof.
  eexists.
  assert (Hscan : scanLines initialLocals
                    (twoBranchesDeep ++ [record "UUID" "-2-1" "4f5a-11"])
                  = Returns _)
    by (vm_compute; reflexivity).
  split; [exact Hscan|].
  exact (proj1 (@scanLines_node_count
                  (twoBranchesDeep ++ [record "UUID" "-2-1" "4f5a-11"])
                  _ Hscan)).
Defined.

(** X14: when the listing comes back without error and the parse reads
    it to the end, [HasSnapshots] returns no error, and it returns true
    exactly when the listing is not the sentence of a machine without
    snapshots and one of its lines is a [Name] record. *)
Theorem HasSnapshots_iff (w : World) (d : VBox42Driver)
    (vmname stdoutString : gostring) (h h' h'' : History)
    (has : bool) (err : option error) :
  vmname <> [] ->
  VBoxManageWithOutput w d
    [ "snapshot" : gostring; vmname; "list" : gostring;
      "--machinereadable" : gostring ] h
  = (Returns (stdoutString, None), h') ->
  HasSnapshots w d vmname h = (Returns (has, err), h'') ->
  err = None /\ h'' = h'
  /\ (has = true <->
      stdoutString <> noSnapshots
      /\ exists txt,
           In txt (scanner_Lines stdoutString) /\ isNameRecord txt = true).
Proof.
  intros Hname Hrun. unfold HasSnapshots.
  pose proof Hname as Hne. apply gostring_eqb_neq in Hne. rewrite Hne.
  unfold bind at 1. rewrite (LoadSnapshots_parses Hname Hrun).
  unfold parseSnapshots.
  destruct (gostring_eqb stdoutString noSnapshots) eqn:Es; cbn [negb].
  - apply gostring_eqb_eq in Es. unfold ret.
    intros H. injection H as <- <- <-.
    split; [reflexivity|]. split; [reflexivity|].
    split; [discriminate | intros [Hn _]; contradiction].
  - apply gostring_eqb_neq in Es.
    destruct (scanLines initialLocals (scanner_Lines stdoutString))
      as [l|p] eqn:El; cbn [obind]; [|discriminate].
    unfold ret. intros H. injection H as <- <- <-.
    split; [reflexivity|]. split; [reflexivity|].
    pose proof (scanLines_root_nil _ El) as Hroot.
    unfold snapshotOf. destruct (rootNode l) as [a|].
    + split; [|reflexivity]. intros _. split; [assumption|].
      destruct (existsb isNameRecord (scanner_Lines stdoutString)) eqn:Ex.
      * apply existsb_exists in Ex. exact Ex.
      * exfalso. assert (Hsome : Some a = None); [|discriminate].
        apply Hroot. intros txt Hin.
        destruct (isNameRecord txt) eqn:Et; [|reflexivity].
        assert (Hex : existsb isNameRecord (scanner_Lines stdoutString)
                      = true).
        { apply existsb_exists. eauto. }
        rewrite Ex in Hex. discriminate.
    + split; [discriminate|]. intros [_ (txt & Hin & Ht)].
      rewrite (proj1 Hroot eq_refl txt Hin) in Ht. discriminate.
Qed.

Lemma HasSnapshots_iff_witness :
  HasSnapshots
    (always (mkRan None (joinLines twoBranches ++ [CR; LF]) []))
    sampleDriver "vm" []
  = (Returns (true, None),
     [mkCmd "/usr/bin/VBoxManage"
            [ "snapshot" : gostring; "vm" : gostring; "list" : gostring;
              "--machinereadable" : gostring ]])
  /\ exists txt,
       In txt (scanner_Lines (joinLines twoBranches))
       /\ isNameRecord txt = true.
Proof.
  assert (Hrun :
    VBoxManageWithOutput
      (always (mkRan None (joinLines twoBranches ++ [CR; LF]) []))
      sampleDriver
      [ "snapshot" : gostring; "vm" : gostring; "list" : gostring;
        "--machinereadable" : gostring ] []
    = (Returns (joinLines twoBranches, None),
       [mkCmd "/usr/bin/VBoxManage"
              [ "snapshot" : gostring; "vm" : gostring; "list" : gostring;
                "--machinereadable" : gostring ]]))
    by (vm_compute; reflexivity).
  assert (Hhas :
    HasSnapshots
      (always (mkRan None (joinLines twoBranches ++ [CR; LF]) []))
      sampleDriver "vm" []
    = (Returns (true, None),
       [mkCmd "/usr/bin/VBoxManage"
              [ "snapshot" : gostring; "vm" : gostring; "list" : gostring;
                "--machinereadable" : gostring ]]))
    by (vm_compute; reflexivity).
  split; [exact Hhas|].
  refine (proj2 (proj1 (proj2 (proj2
            (@HasSnapshots_iff
               (always (mkRan None (joinLines twoBranches ++ [CR; LF]) []))
               sampleDriver "vm" (joinLines twoBranches) [] _ _ true None
               _ Hrun Hhas))) eq_refl)).
  discriminate.
Defined.

(** ** A chain of snapshots is rebuilt as a chain *)

Lemma wellFormedPath_chainPath depth : wellFormedPath (chainPath depth).
Proof.
  unfold wellFormedPath. induction depth as [|depth IH]; cbn [chainPath].
  - constructor.
  - constructor; [|assumption].
    unfold pathGroupRe. apply fullMatch_correct. reflexivity.
Qed.

Lemma strings_Count_chainPath depth :
  strings_Count (chainPath depth) "-" = Z.of_nat depth.
Proof.
  induction depth as [|depth IH]; [reflexivity|].
  change (chainPath (S depth))
    with ("-"%char :: "1"%char :: chainPath depth).
  cbn [strings_Count].
  change (Ascii.eqb "-" "-") with true.
  change (Ascii.eqb "1" "-") with false.
  rewrite IH. lia.
Qed.

Lemma chainCells_length current : forall entries a,
  length (chainCells current a entries) = length entries.
Proof.
  induction entries as [|[name uuid] entries IH]; intros a; [reflexivity|].
  cbn [chainCells]. destruct entries as [|e entries]; [reflexivity|].
  cbn [length]. now rewrite IH.
Qed.

Lemma chainCells_append name : forall done a,
  done <> [] ->
  update (update (chainCells false a done
                    ++ [mkVBoxSnapshot [] [] false []])
                 (length done - 1) (appendChild (a + length done)))
         (length done) (setName name)
  = chainCells false a (done ++ [(name, [])]).
Proof.
  induction done as [|[n u] done IH]; intros a Hne; [contradiction|].
  destruct done as [|e done].
  - cbn. now rewrite Nat.add_1_r.
  - specialize (IH (S a)). 
    change (chainCells false a ((n, u) :: e :: done))
      with (mkVBoxSnapshot n u false [S a]
              :: chainCells false (S a) (e :: done)).
    change (((n, u) :: e :: done) ++ [(name, [])])
      with ((n, u) :: (e :: done) ++ [(name, [])]).
    change (length ((n, u) :: e :: done)) with (S (length (e :: done))).
    replace (S (length (e :: done)) - 1)%nat
      with (S (length (e :: done) - 1)) by (cbn [length]; lia).
    replace (a + S (length (e :: done)))%nat
      with (S a + length (e :: done))%nat by lia.
    cbn [app update].
    rewrite IH by discriminate.
    cbn [app chainCells]. reflexivity.
Qed.

Lemma chainCells_setUUID name uuid : forall done a,
  update (chainCells false a (done ++ [(name, [])])) (length done)
         (setUUID uuid)
  = chainCells false a (done ++ [(name, uuid)]).
Proof.
  induction done as [|[n u] done IH]; intros a; [reflexivity|].
  change (((n, u) :: done) ++ [(name, [])])
    with ((n, u) :: done ++ [(name, [])]).
  change (((n, u) :: done) ++ [(name, uuid)])
    with ((n, u) :: done ++ [(name, uuid)]).
  cbn [chainCells length].
  specialize (IH (S a)).
  destruct done as [|e done]; cbn [app] in *; cbn [update].
  - reflexivity.
  - now rewrite IH.
Qed.

Lemma chainCells_setIsCurrent : forall done a,
  done <> [] ->
  update (chainCells false a done) (length done - 1) (setIsCurrent true)
  = chainCells true a done.
Proof.
  induction done as [|[n u] done IH]; intros a Hne; [contradiction|].
  destruct done as [|e done]; [reflexivity|].
  change (length ((n, u) :: e :: done)) with (S (length (e :: done))).
  replace (S (length (e :: done)) - 1)%nat
    with (S (length (e :: done) - 1)) by (cbn [length]; lia).
  change (chainCells false a ((n, u) :: e :: done))
    with (mkVBoxSnapshot n u false [S a]
            :: chainCells false (S a) (e :: done)).
  cbn [update]. rewrite IH by discriminate. reflexivity.
Qed.

Lemma chainCells_setIsCurrent_again : forall done a,
  done <> [] ->
  update (chainCells true a done) (length done - 1) (setIsCurrent true)
  = chainCells true a done.
Proof.
  induction done as [|[n u] done IH]; intros a Hne; [contradiction|].
  destruct done as [|e done]; [reflexivity|].
  change (length ((n, u) :: e :: done)) with (S (length (e :: done))).
  replace (S (length (e :: done)) - 1)%nat
    with (S (length (e :: done) - 1)) by (cbn [length]; lia).
  change (chainCells true a ((n, u) :: e :: done))
    with (mkVBoxSnapshot n u false [S a]
            :: chainCells true (S a) (e :: done)).
  cbn [update]. rewrite IH by discriminate. reflexivity.
Qed.

(** The two records of one more snapshot of the chain. *)
Lemma chain_step done name uuid :
  done <> [] -> quoteFree name -> quoteFree uuid ->
  scanLines (chainState done)
    [ record "Name" (chainPath (length done)) name;
      record "UUID" (chainPath (length done)) uuid ]
  = Returns (chainState (done ++ [(name, uuid)])).
Proof.
  intros Hne Hname Huuid.
  assert (Hlen : (1 <= length done)%nat).
  { destruct done; [contradiction | cbn [length]; lia]. }
  cbn [scanLines].
  rewrite (scanLine_Name_record _ (wellFormedPath_chainPath _) Hname).
  unfold nameRecord, adjust, chainState.
  cbn [rootNode currentIndicator parentStack node heap].
  repeat rewrite strings_Count_chainPath.
  destruct (Z.gtb_spec (Z.of_nat (length done))
              (Z.of_nat (length done - 1))); [|lia].
  cbn [new stack.Push stack.Peek obind store node heap].
  rewrite chainCells_length.
  rewrite <- (Nat.add_0_l (length done)) at 2.
  rewrite (chainCells_append name 0 Hne).
  cbn [obind].
  rewrite (scanLine_UUID_record _ (wellFormedPath_chainPath _) Huuid).
  cbn [store node heap obind rootNode currentIndicator parentStack].
  rewrite chainCells_setUUID.
  rewrite length_app. cbn [length].
  replace (length done + 1 - 1)%nat with (length done) by lia.
  do 2 f_equal.
  replace (length done) with (S (length done - 1)) at 3 by lia.
  rewrite seq_S, rev_app_distr. reflexivity.
Qed.

Lemma chain_first name uuid :
  quoteFree name -> quoteFree uuid ->
  scanLines initialLocals
    [ record "Name" (chainPath 0) name; record "UUID" (chainPath 0) uuid ]
  = Returns (chainState [(name, uuid)]).
Proof.
  intros Hname Huuid. cbn [scanLines].
  rewrite (scanLine_Name_record _ (wellFormedPath_chainPath _) Hname).
  cbn [nameRecord initialLocals rootNode new heap obind store node
       parentStack currentIndicator app length update].
  rewrite (scanLine_UUID_record _ (wellFormedPath_chainPath _) Huuid).
  reflexivity.
Qed.

Lemma scanLines_app lines1 : forall l lines2,
  scanLines l (lines1 ++ lines2)
  = (l' <~ scanLines l lines1 ;; scanLines l' lines2).
Proof.
  induction lines1 as [|txt lines1 IH]; intros l lines2; [reflexivity|].
  cbn [app scanLines].
  destruct (scanLine l txt) as [l1|]; cbn [obind]; [apply IH | reflexivity].
Qed.

Lemma chain_rest rest : forall done,
  done <> [] -> Forall quoteFreeEntry rest ->
  scanLines (chainState done) (chainLines (length done) rest)
  = Returns (chainState (done ++ rest)).
Proof.
  induction rest as [|[name uuid] rest IH]; intros done Hne Hq.
  - now rewrite app_nil_r.
  - inversion Hq as [|? ? [Hname Huuid] Hq']; subst.
    cbn [fst snd] in Hname, Huuid.
    cbn [chainLines].
    change (record "Name" (chainPath (length done)) name
              :: record "UUID" (chainPath (length done)) uuid
              :: chainLines (S (length done)) rest)
      with ([ record "Name" (chainPath (length done)) name;
              record "UUID" (chainPath (length done)) uuid ]
              ++ chainLines (S (length done)) rest).
    rewrite scanLines_app, (chain_step Hne Hname Huuid). cbn [obind].
    replace (S (length done)) with (length (done ++ [(name, uuid)]))
      by (rewrite length_app; cbn [length]; lia).
    rewrite IH; [|now destruct done | assumption].
    now rewrite <- app_assoc.
Qed.

Lemma chain_marks marks : forall (current : bool) done,
  done <> [] -> Forall isCurrentLine marks ->
  scanLines (mkLocals (chainCells current 0 done) (Some 0%nat)
                      (chainPath (length done - 1))
                      (map Some (rev (seq 0 (length done - 1))))
                      (Some (length done - 1)%nat))
            marks
  = Returns (mkLocals
               (chainCells (current || negb (Nat.eqb (length marks) 0))
                           0 done)
               (Some 0%nat) (chainPath (length done - 1))
               (map Some (rev (seq 0 (length done - 1))))
               (Some (length done - 1)%nat)).
Proof.
  induction marks as [|txt marks IH]; intros current done Hne Hm.
  - cbn. now rewrite orb_false_r.
  - inversion Hm as [|? ? [Hidx Hcur] Hm']; subst.
    cbn [scanLines]. unfold scanLine at 1.
    destruct (Z.gtb_spec (strings_Index txt "=") 0); [|lia].
    rewrite Hcur. cbn [store node heap obind rootNode currentIndicator
                         parentStack].
    assert (Hset : update (chainCells current 0 done) (length done - 1)
                          (setIsCurrent true)
                   = chainCells true 0 done).
    { destruct current;
        [now apply chainCells_setIsCurrent_again
        | now apply chainCells_setIsCurrent]. }
    rewrite Hset, (IH true done Hne Hm').
    cbn [length Nat.eqb negb orb]. now rewrite orb_true_r.
Qed.

Lemma snapshotAt_chain current : forall entries prefix fuel t,
  chainTree current entries = Some t ->
  (length entries <= fuel)%nat ->
  snapshotAt fuel (prefix ++ chainCells current (length prefix) entries)
             (length prefix)
  = t.
Proof.
  induction entries as [|[name uuid] entries IH];
    intros prefix fuel t Ht Hfuel; [discriminate|].
  cbn [chainTree] in Ht. injection Ht as <-.
  destruct fuel as [|fuel]; [cbn [length] in Hfuel; lia|].
  cbn [snapshotAt].
  rewrite nth_error_app2 by lia. rewrite Nat.sub_diag.
  destruct entries as [|e entries].
  - reflexivity.
  - change (chainCells current (length prefix) ((name, uuid) :: e :: entries))
      with (mkVBoxSnapshot name uuid false [S (length prefix)]
              :: chainCells current (S (length prefix)) (e :: entries)).
    cbn [nth_error Name UUID IsCurrent Children map].
    destruct (chainTree current (e :: entries)) as [t'|] eqn:Et;
      [|destruct e; discriminate].
    specialize (IH (prefix ++ [mkVBoxSnapshot name uuid false
                                 [S (length prefix)]]) fuel t' eq_refl).
    rewrite length_app in IH. cbn [length] in IH.
    rewrite Nat.add_1_r, <- app_assoc in IH. cbn [app] in IH.
    rewrite IH by (cbn [length] in *; lia). reflexivity.
Qed.

(** X15: a chain of snapshots is rebuilt as it is.  For the listing of a
    chain, a [Name] and a [UUID] record for each snapshot at one depth
    more than the one before, followed by any lines that start with
    ["Current"], the parser returns the chain: each node with its name
    and UUID and the next for only child, and the last one marked
    current when such a line follows. *)
Theorem scanLines_chain (entries : list (gostring * gostring))
    (marks : list gostring) :
  entries <> [] ->
  Forall quoteFreeEntry entries ->
  Forall isCurrentLine marks ->
  exists l,
    scanLines initialLocals (chainLines 0 entries ++ marks) = Returns l
    /\ snapshotOf (heap l) (rootNode l)
       = chainTree (negb (Nat.eqb (length marks) 0)) entries.
Proof.
  intros Hne Hq Hm.
  destruct entries as [|[name uuid] rest]; [contradiction|].
  inversion Hq as [|? ? [Hname Huuid] Hq']; subst.
    cbn [fst snd] in Hname, Huuid.
  cbn [chainLines].
  change (record "Name" (chainPath 0) name
            :: record "UUID" (chainPath 0) uuid :: chainLines 1 rest)
    with ([ record "Name" (chainPath 0) name;
            record "UUID" (chainPath 0) uuid ] ++ chainLines 1 rest).
  rewrite <- app_assoc.
  rewrite scanLines_app, (chain_first Hname Huuid). cbn [obind].
  rewrite scanLines_app.
  change 1%nat with (length [(name, uuid)]).
  rewrite chain_rest by (discriminate || assumption). cbn [obind].
  unfold chainState.
  rewrite (chain_marks false (done := [(name, uuid)] ++ rest))
    by (discriminate || assumption).
  cbn [orb]. eexists. split; [reflexivity|].
  cbn [heap rootNode snapshotOf].
  destruct (chainTree (negb (Nat.eqb (length marks) 0))
              ([(name, uuid)] ++ rest)) as [t|] eqn:Et; [|discriminate].
  cbn [app] in *. rewrite Et. f_equal.
  apply (snapshotAt_chain _ _ [] Et).
  now rewrite chainCells_length.
Qed.

Lemma scanLines_chain_witness :
  exists l,
    scanLines initialLocals
      (chainLines 0 [ ("a" : gostring, "u1" : gostring);
                      ("b" : gostring, "u2" : gostring) ]
         ++ [ "CurrentSnapshotName=" ++ [dquote] ++ "b" ++ [dquote] ])
    = Returns l
    /\ snapshotOf (heap l) (rootNode l)
       = Some (SnapshotNode "a" "u1" false
                 [SnapshotNode "b" "u2" true []]).
Proof.
  refine (@scanLines_chain
            [ ("a" : gostring, "u1" : gostring);
              ("b" : gostring, "u2" : gostring) ]
            [ "CurrentSnapshotName=" ++ [dquote] ++ "b" ++ [dquote] ]
            _ _ _).
  - discriminate.
  - repeat constructor.
  - repeat constructor.
Defined.

(** X16: after the records of a chain, a [Name] record that is less deep
    than the last one, whatever its depth, is hung under the root: the
    stack is emptied down to its first entry. *)
Theorem scanLine_after_chain_shallower
    (done : list (gostring * gostring)) (name uuid : gostring)
    (rest : list (gostring * gostring)) (path value : gostring) :
  done = (name, uuid) :: rest ->
  wellFormedPath path -> quoteFree value ->
  strings_Count path "-" < Z.of_nat (length done - 1) ->
  exists l',
    scanLine (chainState done) (record "Name" path value) = Returns l'
    /\ parentStack l' = [Some 0%nat]
    /\ node l' = Some (length done)
    /\ nth_error (heap l') 0
       = Some (mkVBoxSnapshot name uuid false [1%nat; length done])
    /\ nth_error (heap l') (length done)
       = Some (mkVBoxSnapshot value [] false []).
Proof.
  intros Hdone Hpath Hvalue Hlt.
  pose proof (strings_Count_nonneg path "-") as Hpos.
  assert (Hlen : (2 <= length done)%nat) by lia.
  rewrite (scanLine_Name_record _ Hpath Hvalue).
  unfold nameRecord, adjust, chainState.
  cbn [rootNode currentIndicator parentStack node heap].
  rewrite strings_Count_chainPath.
  destruct (Z.gtb_spec (strings_Count path "-")
              (Z.of_nat (length done - 1))); [lia|].
  destruct (Z.ltb_spec (strings_Count path "-")
              (Z.of_nat (length done - 1))); [|lia].
  rewrite popTimes_skipn.
  replace (Z.to_nat (Z.of_nat (length done - 1) - 1))
    with (length done - 2)%nat by lia.
  cbn [new].
  match goal with
  | |- context [@skipn ?A ?n ?s] =>
      assert (Hskip : @skipn A n s = [Some 0%nat])
  end.
  { replace (length done - 1)%nat with (S (length done - 2)) by lia.
    change (seq 0 (S (length done - 2)))
      with (0%nat :: seq 1 (length done - 2)).
    cbn [rev]. rewrite map_app. cbn [map].
    rewrite skipn_app.
    rewrite length_map, length_rev, length_seq, Nat.sub_diag.
    rewrite skipn_all2 by (rewrite length_map, length_rev, length_seq; lia).
    reflexivity. }
  rewrite Hskip.
  cbn [new stack.Peek obind store node heap].
  eexists. split; [reflexivity|].
  cbn [parentStack node heap]. rewrite chainCells_length.
  split; [reflexivity|]. split; [reflexivity|].
  assert (Hroot : nth_error (chainCells false 0 done) 0
                  = Some (mkVBoxSnapshot name uuid false [1%nat])).
  { subst done. destruct rest as [|e rest]; [cbn [length] in Hlen; lia|].
    reflexivity. }
  destruct (@heap_after_append (chainCells false 0 done) 0%nat _ value Hroot)
    as (H1 & H2 & _).
  cbn [new fst] in H1, H2. rewrite chainCells_length in H1, H2.
  split; [exact H1 | exact H2].
Qed.

Lemma scanLine_after_chain_shallower_witness :
  exists l',
    scanLine (chainState [ ("a" : gostring, "u1" : gostring);
                           ("b" : gostring, "u2" : gostring);
                           ("c" : gostring, "u3" : gostring);
                           ("d" : gostring, "u4" : gostring) ])
             (record "Name" "-1-2" "e")
    = Returns l'
    /\ parentStack l' = [Some 0%nat]
    /\ nth_error (heap l') 0
       = Some (mkVBoxSnapshot "a" "u1" false [1%nat; 4%nat]).
Proof.
  destruct (@scanLine_after_chain_shallower
              [ ("a" : gostring, "u1" : gostring);
                ("b" : gostring, "u2" : gostring);
                ("c" : gostring, "u3" : gostring);
                ("d" : gostring, "u4" : gostring) ]
              "a" "u1" _ "-1-2" "e" eq_refl
              (wellFormedPath_check "-1-2" eq_refl) eq_refl eq_refl)
    as (l' & Hs & Hstack & _ & Hroot & _).
  exists l'. split; [exact Hs|]. split; [exact Hstack | exact Hroot].
Defined.

(** X17: a result of [LoadSnapshots] comes after exactly one command,
    the listing; its error is nil exactly when that command exited with
    status zero without an error banner, and a tree is only ever
    returned with a nil error: a listing that came with a failure is
    never parsed. *)
Theorem LoadSnapshots_result (w : World) (d : VBox42Driver)
    (vmName : gostring) (h h' : History)
    (sn : option Snapshot) (err : option error) :
  let c := mkCmd (VBoxManagePath d)
                 [ "snapshot" : gostring; vmName; "list" : gostring;
                   "--machinereadable" : gostring ] in
  LoadSnapshots w d vmName h = (Returns (sn, err), h') ->
  vmName <> []
  /\ h' = h ++ [c]
  /\ (err = None <->
      ran_err (w h c) = None
      /\ ~ hasErrorBanner (strings_TrimSpace (ran_stderr (w h c))))
  /\ (err <> None -> sn = None).
Proof.
  intros c. unfold LoadSnapshots.
  destruct (gostring_eqb vmName []) eqn:En; [discriminate|].
  apply gostring_eqb_neq in En.
  destruct (VBoxManageWithOutput_returns w d
              [ "snapshot" : gostring; vmName; "list" : gostring;
                "--machinereadable" : gostring ] h)
    as (e & Hrun & _ & Hiff).
  fold c in Hrun, Hiff. rewrite no_banner_iff in Hiff.
  unfold bind. rewrite Hrun.
  destruct e as [e|].
  - unfold ret. intros H. injection H as <- <- <-.
    split; [assumption|]. split; [reflexivity|]. split; [exact Hiff|].
    reflexivity.
  - unfold lift.
    destruct (parseSnapshots _) as [root|p]; [|discriminate].
    unfold ret. intros H. injection H as <- <- <-.
    split; [assumption|]. split; [reflexivity|]. split; [exact Hiff|].
    intros Hc. now contradiction Hc.
Qed.

Lemma LoadSnapshots_result_witness :
  LoadSnapshots
    (always (mkRan (Some (exec_ExitError 1))
                   (record "Name" "-10" "x")
                   "VBoxManage: error: Could not find a registered machine"))
    sampleDriver "vm" []
  = (Returns
       (None,
        Some (fmt_Errorf
                ("VBoxManage error: "
                   ++ "VBoxManage: error: Could not find a registered machine"))),
     [mkCmd "/usr/bin/VBoxManage"
            [ "snapshot" : gostring; "vm" : gostring; "list" : gostring;
              "--machinereadable" : gostring ]])
  /\ ("vm" : gostring) <> [].
Proof.
  split; [reflexivity|].
  exact (proj1 (@LoadSnapshots_result
                  (always (mkRan (Some (exec_ExitError 1))
                                 (record "Name" "-10" "x")
                                 "VBoxManage: error: Could not find a registered machine"))
                  sampleDriver "vm" [] _ None _ eq_refl)).
Defined.

(** ** Deleting a machine, with retries *)

Lemma VBoxManage_returns (w : World) (d : VBox42Driver) args h :
  exists err,
    VBoxManage w d args h = (Returns err, h ++ [mkCmd (VBoxManagePath d) args]).
Proof.
  destruct (VBoxManageWithOutput_returns w d args h)
    as (err & _ & H & _).
  eauto.
Qed.

Lemma retry_Run_VBoxManage (w : World) (d : VBox42Driver) args tries :
  let c := mkCmd (VBoxManagePath d) args in
  let fn := VBoxManage w d args in
  forall h last,
  exists n err,
    retry_Run tries last fn h = (Returns err, h ++ repeat c n)
    /\ (n <= tries)%nat
    /\ (forall j, (j < n - 1)%nat ->
                  fst (fn (h ++ repeat c j)) <> Returns None)
    /\ ((n = 0%nat /\ tries = 0%nat /\ err = last)
        \/ ((1 <= n)%nat /\ err = None
            /\ fst (fn (h ++ repeat c (n - 1))) = Returns None)
        \/ ((1 <= n)%nat /\ n = tries /\ err <> None
            /\ fst (fn (h ++ repeat c (n - 1))) = Returns err)).
Proof.
  intros c fn. induction tries as [|tries IH]; intros h last.
  - exists 0%nat, last. cbn [retry_Run repeat]. unfold ret.
    rewrite app_nil_r. split; [reflexivity|]. split; [lia|].
    split; [intros j Hj; lia | auto].
  - cbn [retry_Run]. unfold bind.
    destruct (VBoxManage_returns w d args h) as (e & He).
    fold c fn in He. rewrite He.
    destruct e as [x|].
    + destruct (IH (h ++ [c]) (Some x)) as (n & err & Hrun & Hle & Hfail & Hend).
      exists (S n), err.
      assert (Hshift : forall j, (h ++ [c]) ++ repeat c j
                                 = h ++ repeat c (S j)).
      { intros j. now rewrite <- app_assoc. }
      rewrite Hshift in Hrun.
      split; [exact Hrun|]. split; [lia|].
      assert (H0 : fst (fn (h ++ repeat c 0)) = Returns (Some x)).
      { cbn [repeat]. rewrite app_nil_r, He. reflexivity. }
      split.
      * intros [|j] Hj.
        -- rewrite H0. discriminate.
        -- rewrite <- Hshift. apply Hfail. lia.
      * destruct Hend as [(En & Et & El)
                         | [(Hn & El & Hok) | (Hn & En & Hne & Hlast)]].
        -- subst n tries err. right. right. split; [lia|].
           split; [reflexivity|]. split; [discriminate | exact H0].
        -- subst err. right. left. split; [lia|]. split; [reflexivity|].
           rewrite Hshift in Hok.
           now replace (S n - 1)%nat with (S (n - 1)) by lia.
        -- right. right. split; [lia|]. split; [now rewrite En|].
           split; [assumption|].
           rewrite Hshift in Hlast.
           now replace (S n - 1)%nat with (S (n - 1)) by lia.
    + exists 1%nat, None. unfold ret. cbn [repeat].
      split; [reflexivity|]. split; [lia|].
      split; [intros j Hj; lia|].
      right. left. split; [lia|]. split; [reflexivity|].
      cbn [Nat.sub repeat]. rewrite app_nil_r, He. reflexivity.
Qed.

(** X18: [Delete] runs [unregistervm ... --delete] once at least and
    five times at most, one run after the other; every run but the last
    failed; it returns nil exactly when the last run succeeded, and it
    gives up with an error only after the fifth. *)
Theorem Delete_attempts (w : World) (d : VBox42Driver) (name : gostring)
    (h : History) :
  let args := [ "unregistervm" : gostring; name; "--delete" : gostring ] in
  let c := mkCmd (VBoxManagePath d) args in
  exists n err,
    Delete w d name h = (Returns err, h ++ repeat c n)
    /\ (1 <= n <= 5)%nat
    /\ (forall j, (j < n - 1)%nat ->
                  fst (VBoxManage w d args (h ++ repeat c j))
                  <> Returns None)
    /\ (err = None <->
        fst (VBoxManage w d args (h ++ repeat c (n - 1))) = Returns None)
    /\ (err <> None -> n = 5%nat).
Proof.
  intros args c. unfold Delete.
  destruct (retry_Run_VBoxManage w d args 5 h None)
    as (n & err & Hrun & Hle & Hfail & Hend).
  fold c in Hrun, Hfail, Hend.
  exists n, err. split; [exact Hrun|].
  destruct Hend as [(_ & H5 & _) | [(Hn & El & Hok) | (Hn & En & Hne & Hlast)]].
  - discriminate H5.
  - subst err. split; [lia|]. split; [exact Hfail|]. split; [tauto|].
    intros Hc. now contradiction Hc.
  - split; [lia|]. split; [exact Hfail|]. split; [|intros _; exact En].
    split; [intros E; now contradiction Hne|].
    intros Hok. rewrite Hok in Hlast. injection Hlast as E.
    now rewrite <- E in Hne.
Qed.

(** ** Suppressing the messages of the interface *)




(** ** What the parser does not read *)

(** X20: the parser reads neither what a line that starts with
    ["Current"] says nor the path of a [UUID] record: any two such
    lines, and any two [UUID] records with the same value, do the same,
    a write through the node of the latest [Name] record.  The node
    marked current is the last one of the listing, whichever snapshot
    the line names. *)
Theorem scanLine_ignores (l : Locals) (txt1 txt2 : gostring)
    (path1 path2 value : gostring) (a : nat) :
  isCurrentLine txt1 -> isCurrentLine txt2 ->
  wellFormedPath path1 -> wellFormedPath path2 -> quoteFree value ->
  node l = Some a ->
  scanLine l txt1 = scanLine l txt2
  /\ scanLine l txt1
     = Returns (mkLocals (update (heap l) a (setIsCurrent true))
                         (rootNode l) (currentIndicator l) (parentStack l)
                         (node l))
  /\ scanLine l (record "UUID" path1 value)
     = scanLine l (record "UUID" path2 value)
  /\ scanLine l (record "UUID" path1 value)
     = Returns (mkLocals (update (heap l) a (setUUID value))
                         (rootNode l) (currentIndicator l) (parentStack l)
                         (node l)).
Proof.
  intros [Hi1 Hc1] [Hi2 Hc2] Hp1 Hp2 Hv Hnode.
  assert (Hcur : forall txt,
            strings_Index txt "=" > 0 ->
            strings_HasPrefix txt "Current" = true ->
            scanLine l txt
            = Returns (mkLocals (update (heap l) a (setIsCurrent true))
                                (rootNode l) (currentIndicator l)
                                (parentStack l) (node l))).
  { intros txt Hi Hc. unfold scanLine.
    destruct (Z.gtb_spec (strings_Index txt "=") 0); [|lia].
    rewrite Hc, Hnode. reflexivity. }
  rewrite (Hcur txt1 Hi1 Hc1), (Hcur txt2 Hi2 Hc2).
  rewrite (scanLine_UUID_record l Hp1 Hv), (scanLine_UUID_record l Hp2 Hv).
  rewrite Hnode. auto.
Qed.

Lemma scanLine_ignores_witness :
  scanLine afterThree ("CurrentSnapshotName=" ++ [dquote] ++ "a" ++ [dquote])
  = scanLine afterThree
      ("CurrentSnapshotNode=" ++ [dquote] ++ "SnapshotName-1" ++ [dquote])
  /\
  scanLine afterThree (record "UUID" "" "4f5a-11")
  = scanLine afterThree (record "UUID" "-1-1" "4f5a-11").
Proof.
  pose proof (@scanLine_ignores afterThree
                ("CurrentSnapshotName=" ++ [dquote] ++ "a" ++ [dquote])
                ("CurrentSnapshotNode=" ++ [dquote] ++ "SnapshotName-1"
                   ++ [dquote])
                "" "-1-1" "4f5a-11" 2%nat
                (conj eq_refl eq_refl) (conj eq_refl eq_refl)
                (wellFormedPath_check "" eq_refl)
                (wellFormedPath_check "-1-1" eq_refl) eq_refl eq_refl)
    as (H1 & _ & H2 & _).
  split; [exact H1 | exact H2].
Defined.
